(** * Verification of the MACD back-testing toolkit

    Shallow embedding of
      - strategies/macd_histogram_strategy.py  (entry and exit rules, [next]),
      - backtest/backtest_engine.py            (ValueAnalyzer, add_strategy, run),
      - analysis/performance_analyzer.py       (calculate_metrics),
      - analysis/factor_analysis.py            (the RSI column of calculate_factors),
      - main.py                                (alignment of the value series).

    Numbers.  Python and pandas compute on IEEE binary64.  The embedding keeps
    the special values of that format (both infinities and NaN, with their
    arithmetic and their comparisons) and takes finite arithmetic to be exact:
    a finite value is a rational, and rounding, overflow and the sign of zero
    are not modelled.  Square root and general power are not rational; they
    are parameters of the performance analyzer. *)

From Stdlib Require Import ZArith QArith Qround Qabs List Bool Lia Lqa Sorted.
Import ListNotations.

Set Implicit Arguments.

(** ** Floating values *)

Module Float.

Inductive fval : Type :=
| Fin (q : Q)
| PInf
| NInf
| NaN.

(** Finite results are kept in lowest terms, so that equal values are equal
    terms. *)
Definition fin (q : Q) : fval := Fin (Qred q).

#[global] Arguments Qred : simpl never.

Definition Qsgn (q : Q) : Z := Z.sgn (Qnum q).

Definition Qltb (p q : Q) : bool := negb (Qle_bool q p).

Definition is_nan (a : fval) : bool :=
  match a with NaN => true | _ => false end.

Definition is_finite (a : fval) : bool :=
  match a with Fin _ => true | _ => false end.

Definition fneg (a : fval) : fval :=
  match a with
  | Fin q => fin (- q)
  | PInf => NInf
  | NInf => PInf
  | NaN => NaN
  end.

Definition fadd (a b : fval) : fval :=
  match a, b with
  | NaN, _ | _, NaN => NaN
  | Fin p, Fin q => fin (p + q)
  | PInf, NInf | NInf, PInf => NaN
  | PInf, _ | _, PInf => PInf
  | NInf, _ | _, NInf => NInf
  end.

Definition fsub (a b : fval) : fval := fadd a (fneg b).

(** An infinity carrying the sign [s]; a zero sign is the invalid
    operation. *)
Definition inf_of_sign (s : Z) : fval :=
  match s with
  | Z0 => NaN
  | Zpos _ => PInf
  | Zneg _ => NInf
  end.

Definition fsign (a : fval) : Z :=
  match a with
  | Fin q => Qsgn q
  | PInf => 1
  | NInf => (-1)
  | NaN => 0
  end.

Definition fmul (a b : fval) : fval :=
  match a, b with
  | NaN, _ | _, NaN => NaN
  | Fin p, Fin q => fin (p * q)
  | _, _ => inf_of_sign (fsign a * fsign b)
  end.

(** numpy division: a finite non-zero value over zero is an infinity, zero
    over zero and infinity over infinity are NaN; nothing is raised. *)
Definition fdiv (a b : fval) : fval :=
  match a, b with
  | NaN, _ | _, NaN => NaN
  | Fin p, Fin q =>
      if Qeq_bool q 0 then inf_of_sign (Qsgn p) else fin (p / q)
  | Fin _, _ => Fin 0
  | _, Fin q => if Qeq_bool q 0 then a else inf_of_sign (fsign a * Qsgn q)
  | _, _ => NaN
  end.

Definition fabs (a : fval) : fval :=
  match a with
  | Fin q => fin (Qabs q)
  | PInf | NInf => PInf
  | NaN => NaN
  end.

(** Comparisons: every ordered comparison with NaN is false, [!=] with NaN is
    true. *)
Definition fltb (a b : fval) : bool :=
  match a, b with
  | NaN, _ | _, NaN => false
  | Fin p, Fin q => Qltb p q
  | NInf, NInf | PInf, _ | _, NInf => false
  | _, _ => true
  end.

Definition feqb (a b : fval) : bool :=
  match a, b with
  | Fin p, Fin q => Qeq_bool p q
  | PInf, PInf | NInf, NInf => true
  | _, _ => false
  end.

Definition fgtb (a b : fval) : bool := fltb b a.
Definition fleb (a b : fval) : bool := fltb a b || feqb a b.
Definition fgeb (a b : fval) : bool := fleb b a.
Definition fneb (a b : fval) : bool := negb (feqb a b).

Definition of_Z (z : Z) : fval := Fin (inject_Z z).
Definition of_nat (n : nat) : fval := of_Z (Z.of_nat n).

End Float.

Export Float.

Declare Scope fval_scope.
Delimit Scope fval_scope with F.
Infix "+" := fadd : fval_scope.
Infix "-" := fsub : fval_scope.
Infix "*" := fmul : fval_scope.
Infix "/" := fdiv : fval_scope.
Notation "- x" := (fneg x) : fval_scope.
Infix "<?" := fltb : fval_scope.
Infix ">?" := fgtb : fval_scope.
Infix "<=?" := fleb : fval_scope.
Infix ">=?" := fgeb : fval_scope.
Infix "=?" := feqb : fval_scope.
Infix "!=?" := fneb (at level 70) : fval_scope.

(** ** Exceptions *)

Inductive exn : Type :=
| ZeroDivisionError
| IndexError
| ValueError.

Inductive outcome (A : Type) : Type :=
| Ok (a : A)
| Raise (e : exn).

Arguments Ok {A} a.
Arguments Raise {A} e.

Definition bind {A B} (m : outcome A) (k : A -> outcome B) : outcome B :=
  match m with
  | Ok a => k a
  | Raise e => Raise e
  end.

Notation "x <- m ;; k" := (bind m (fun x => k))
  (at level 61, m at next level, right associativity).

(** ** strategies/macd_histogram_strategy.py *)

Module MACDHistogramStrategy.

Inductive operation : Type := buy_op | sell_op.

Definition operation_eqb (a b : operation) : bool :=
  match a, b with
  | buy_op, buy_op | sell_op, sell_op => true
  | _, _ => false
  end.

(** [self.last_operation != 'buy'] on a value that is None, 'buy' or 'sell'. *)
Definition last_operation_is (lo : option operation) (o : operation) : bool :=
  match lo with
  | Some o' => operation_eqb o' o
  | None => false
  end.

(** [params] (lines 5-14): periods are integers, the other parameters
    floats. *)
Record params : Type := {
  fastperiod : Z;
  slowperiod : Z;
  signalperiod : Z;
  exit_profit_pct : fval;
  exit_loss_pct : fval;
  trend_ema_period : Z;
  volume_ma_period : Z;
  macd_threshold : fval
}.

Definition default_params : params := {|
  fastperiod := 12;
  slowperiod := 26;
  signalperiod := 9;
  exit_profit_pct := Fin (15 # 100);
  exit_loss_pct := Fin (7 # 100);
  trend_ema_period := 60;
  volume_ma_period := 20;
  macd_threshold := Fin 0
|}.

(** A backtrader line as the strategy sees it at a bar: index [0] is [cur],
    index [-1], [-2], ... are the elements of [past] (most recent first).
    [len] of the line is one more than the length of [past]. *)
Record line : Type := { cur : fval; past : list fval }.

Definition line_len (l : line) : nat := S (length (past l)).

Definition line_prev (l : line) : fval := hd NaN (past l).

(** What the rules read at a bar. *)
Record view : Type := {
  macd_hist : line;
  macd_line : fval;
  trend_ema : fval;
  volume_ma : fval;
  close : Q;
  volume : Q
}.

Definition curr_hist (v : view) : fval := cur (macd_hist v).

(** [self.macd_hist[-1] if len(self.macd_hist) > 1 else 0] *)
Definition prev_hist (v : view) : fval :=
  if (1 <? line_len (macd_hist v))%nat then line_prev (macd_hist v) else Fin 0.

(** [should_buy] (lines 67-84), with its local variables. *)
Definition macd_cross_up (p : params) (v : view) : bool :=
  (prev_hist v <? macd_threshold p)%F && (curr_hist v >? macd_threshold p)%F.

Definition price_above_trend (v : view) : bool := (Fin (close v) >? trend_ema v)%F.

Definition volume_increase (v : view) : bool :=
  (Fin (volume v) >? volume_ma v * Fin (12 # 10))%F.

Definition macd_above_zero (v : view) : bool := (macd_line v >? Fin 0)%F.

Definition should_buy (p : params) (v : view) (last_operation : option operation)
  : bool :=
  macd_cross_up p v && price_above_trend v && volume_increase v
  && macd_above_zero v && negb (last_operation_is last_operation buy_op).

(** [should_sell] (lines 86-118), with its local variables. *)
Definition macd_cross_down (p : params) (v : view) : bool :=
  (prev_hist v >? - macd_threshold p)%F && (curr_hist v <? - macd_threshold p)%F.

Definition price_below_trend (v : view) : bool := (Fin (close v) <? trend_ema v)%F.

(** Truth value of [self.buy_price]: None and 0.0 are false. *)
Definition truthy_price (bp : option fval) : option fval :=
  match bp with
  | Some b => if (b =? Fin 0)%F then None else Some b
  | None => None
  end.

Definition should_sell (p : params) (v : view) (position_size : Z)
    (buy_price : option fval) (last_operation : option operation) : bool :=
  if (position_size =? 0)%Z then false else
  let take_profit :=
    match truthy_price buy_price with
    | Some b => ((Fin (close v) - b) / b >=? exit_profit_pct p)%F
    | None => false
    end in
  if take_profit then true else
  let stop_loss :=
    match truthy_price buy_price with
    | Some b => ((b - Fin (close v)) / b >=? exit_loss_pct p)%F
    | None => false
    end in
  if stop_loss then true else
  (macd_cross_down p v || price_below_trend v)
  && negb (last_operation_is last_operation sell_op).

(** *** Orders and the broker

    [self.buy], [self.sell], [self.broker] and [self.position] belong to
    backtrader.  The strategy is written against this interface; it never
    touches cash or position itself. *)

Record Order : Type := { side : operation; size : Z }.

Inductive order_status : Type :=
| Submitted | Accepted | Partial | Completed
| Canceled | Expired | Margin | Rejected.

(** What [notify_order] reads from the order it is handed. *)
Record notification : Type := {
  status : order_status;
  isbuy : bool;
  executed_price : fval
}.

Class Broker (B : Type) : Type := {
  getcash : B -> Q;
  getvalue : B -> Q;
  position_size : B -> Z;
  buy : B -> Z -> B * option Order;
  sell : B -> Z -> B * option Order;
  resolve : B -> Q -> B * list notification;
  setcash : B -> Q -> B;
  new_broker : B
}.

(** The attributes the strategy owns. *)
Record strategy : Type := {
  buy_price : option fval;
  order : option Order;
  last_operation : option operation
}.

(** [__init__] *)
Definition init : strategy :=
  {| buy_price := None; order := None; last_operation := None |}.

(** [notify_order] (lines 41-55) *)
Definition notify_order (st : strategy) (n : notification) : strategy :=
  match status n with
  | Submitted | Accepted => st
  | Completed =>
      {| buy_price := if isbuy n then Some (executed_price n) else buy_price st;
         order := None;
         last_operation := last_operation st |}
  | _ =>
      {| buy_price := buy_price st;
         order := None;
         last_operation := last_operation st |}
  end.

(** Python float division raises on a zero divisor. *)
Definition py_div (a b : Q) : outcome Q :=
  if Qeq_bool b 0 then Raise ZeroDivisionError else Ok (Qred (a / b)).

(** [int(x)] truncates towards zero. *)
Definition py_int (q : Q) : Z := Z.quot (Qnum q) (Zpos (Qden q)).

Section Next.
Context {B : Type} `{Broker B}.

(** [next] (lines 120-135).  The size is
    [int(self.broker.getcash() * 0.95 / self.data.close[0])]. *)
Definition next (p : params) (v : view) (st : strategy) (b : B)
  : outcome (strategy * B) :=
  match order st with
  | Some _ => Ok (st, b)
  | None =>
      if (position_size b =? 0)%Z then
        if should_buy p v (last_operation st) then
          x <- py_div (getcash b * (95 # 100)) (close v) ;;
          let '(b', o) := buy b (py_int x) in
          Ok ({| buy_price := buy_price st;
                 order := o;
                 last_operation := Some buy_op |}, b')
        else Ok (st, b)
      else
        if should_sell p v (position_size b) (buy_price st) (last_operation st)
        then
          let '(b', o) := sell b (position_size b) in
          Ok ({| buy_price := buy_price st;
                 order := o;
                 last_operation := Some sell_op |}, b')
        else Ok (st, b)
  end.

End Next.

End MACDHistogramStrategy.

Import MACDHistogramStrategy.

(** ** backtest/backtest_engine.py *)

Module BacktestEngine.

(** One row of the data feed with the indicator values of that bar. *)
Record bar : Type := { timestamp : Z; bar_view : view }.

(** The keyword arguments of [add_strategy]: a parameter is either given or
    left to its default. *)
Record kwargs : Type := {
  kw_fastperiod : option Z;
  kw_slowperiod : option Z;
  kw_signalperiod : option Z;
  kw_exit_profit_pct : option fval;
  kw_exit_loss_pct : option fval;
  kw_trend_ema_period : option Z;
  kw_volume_ma_period : option Z;
  kw_macd_threshold : option fval
}.

Definition no_kwargs : kwargs :=
  {| kw_fastperiod := None; kw_slowperiod := None; kw_signalperiod := None;
     kw_exit_profit_pct := None; kw_exit_loss_pct := None;
     kw_trend_ema_period := None; kw_volume_ma_period := None;
     kw_macd_threshold := None |}.

Definition given {A} (o : option A) (d : A) : A :=
  match o with Some a => a | None => d end.

Definition with_kwargs (d : params) (k : kwargs) : params :=
  {| fastperiod := given (kw_fastperiod k) (fastperiod d);
     slowperiod := given (kw_slowperiod k) (slowperiod d);
     signalperiod := given (kw_signalperiod k) (signalperiod d);
     exit_profit_pct := given (kw_exit_profit_pct k) (exit_profit_pct d);
     exit_loss_pct := given (kw_exit_loss_pct k) (exit_loss_pct d);
     trend_ema_period := given (kw_trend_ema_period k) (trend_ema_period d);
     volume_ma_period := given (kw_volume_ma_period k) (volume_ma_period d);
     macd_threshold := given (kw_macd_threshold k) (macd_threshold d) |}.

(** Modelled from the spec: the lookback of section 4.4 ("skip until
    indicator lookback windows are satisfied"), the longest window of the
    strategy's indicators. *)
Definition minperiod (p : params) : nat :=
  Z.to_nat (Z.max (Z.max (fastperiod p) (slowperiod p) + signalperiod p - 1)
                  (Z.max (trend_ema_period p) (volume_ma_period p))).

Section Engine.
Context {B : Type} `{Broker B}.

(** [ValueAnalyzer]: one [broker.getvalue()] appended per call of [next]. *)
Definition ValueAnalyzer_init : list Q := [].

Definition ValueAnalyzer_next (values : list Q) (b : B) : list Q :=
  values ++ [getvalue b].

Definition ValueAnalyzer_get_analysis (values : list Q) : list Q := values.

Record sim : Type := {
  strat : strategy;
  broker : B;
  values : list Q
}.

(** Modelled from the spec: the bar loop of section 4.4, which the engine
    delegates to [cerebro.run()].  Per bar: the rules are skipped inside the
    lookback window, otherwise the strategy's [next] runs; the order is
    resolved at the bar's close and notified; the analyzer records the
    value. *)
Definition step (p : params) (i : nat) (x : bar) (s : sim) : outcome sim :=
  r <- (if (S i <? minperiod p)%nat then Ok (strat s, broker s)
        else next p (bar_view x) (strat s) (broker s)) ;;
  let '(b2, ns) := resolve (snd r) (close (bar_view x)) in
  Ok {| strat := fold_left notify_order ns (fst r);
        broker := b2;
        values := ValueAnalyzer_next (values s) b2 |}.

Fixpoint loop (p : params) (i : nat) (bars : list bar) (s : sim) : outcome sim :=
  match bars with
  | [] => Ok s
  | x :: rest => s' <- step p i x s ;; loop p (S i) rest s'
  end.

Record engine : Type := {
  cerebro_broker : B;
  cerebro_strats : list kwargs;
  initial_cash : Q;
  data : list bar;
  portfolio_values : list Q
}.

(** [BacktestEngine(initial_cash)] *)
Definition new_engine (cash : Q) : engine :=
  {| cerebro_broker := setcash new_broker cash;
     cerebro_strats := [];
     initial_cash := cash;
     data := [];
     portfolio_values := [] |}.

Definition add_data (e : engine) (d : list bar) : engine :=
  {| cerebro_broker := cerebro_broker e;
     cerebro_strats := cerebro_strats e;
     initial_cash := initial_cash e;
     data := d;
     portfolio_values := portfolio_values e |}.

(** [add_strategy(MACDHistogramStrategy, **kwargs)]: the arguments are handed
    to cerebro as they are. *)
Definition add_strategy (e : engine) (k : kwargs) : outcome engine :=
  Ok {| cerebro_broker := cerebro_broker e;
        cerebro_strats := cerebro_strats e ++ [k];
        initial_cash := initial_cash e;
        data := data e;
        portfolio_values := portfolio_values e |}.

(** [run]: [results[0]] is the first strategy added. *)
Definition run (e : engine) : outcome engine :=
  let p := with_kwargs default_params (hd no_kwargs (cerebro_strats e)) in
  s <- loop p 0 (data e)
         {| strat := init; broker := cerebro_broker e;
            values := ValueAnalyzer_init |} ;;
  Ok {| cerebro_broker := broker s;
        cerebro_strats := cerebro_strats e;
        initial_cash := initial_cash e;
        data := data e;
        portfolio_values := ValueAnalyzer_get_analysis (values s) |}.

End Engine.

End BacktestEngine.

Import BacktestEngine.

(** ** main.py: the value series handed to the analyzer *)

Module Main.

(** Lines 77-85.  One pass of the loop over [range(len(data))]. *)
Definition align_step (engine_values : list Q) (acc : list Q) (i : nat) : list Q :=
  if (i <? length engine_values)%nat
  then acc ++ [nth i engine_values 0]
  else acc ++ [last acc 100000].

Definition align (engine_values : list Q) (n : nat) : list Q :=
  fold_left (align_step engine_values) (seq 0 n) [].

(** [pd.Series(values, index=...)] refuses an index of another length. *)
Definition pd_Series (vals : list fval) (index : list Z)
  : outcome (list (Z * fval)) :=
  if (length vals =? length index)%nat then Ok (combine index vals)
  else Raise ValueError.

(** [ffill]: a missing value takes the last valid one before it. *)
Fixpoint ffill_from (prev : fval) (l : list fval) : list fval :=
  match l with
  | [] => []
  | x :: r =>
      let y := if is_nan x then prev else x in y :: ffill_from y r
  end.

Definition ffill (l : list fval) : list fval := ffill_from NaN l.

(** [bfill]: a missing value takes the next valid one after it. *)
Definition bfill (l : list fval) : list fval := rev (ffill (rev l)).

Definition on_values (f : list fval -> list fval) (s : list (Z * fval))
  : list (Z * fval) :=
  combine (map fst s) (f (map snd s)).

Definition portfolio_series (engine_values : list Q) (data : list bar)
  : outcome (list (Z * fval)) :=
  s <- pd_Series (map Fin (align engine_values (length data)))
                 (map timestamp data) ;;
  Ok (on_values bfill (on_values ffill s)).

End Main.

(** ** pandas series operations used by the analyzers *)

Module Pandas.

Definition fsum (l : list fval) : fval := fold_left fadd l (Fin 0).

Definition dropna (l : list fval) : list fval :=
  filter (fun x => negb (is_nan x)) l.

Definition fillna (d : fval) (l : list fval) : list fval :=
  map (fun x => if is_nan x then d else x) l.

Fixpoint pct_from (prev : fval) (l : list fval) : list fval :=
  match l with
  | [] => []
  | x :: r => (x / prev - Fin 1)%F :: pct_from x r
  end.

(** [pct_change]: the first element has no predecessor. *)
Definition pct_change (l : list fval) : list fval :=
  match l with
  | [] => []
  | x :: r => NaN :: pct_from x r
  end.

Fixpoint diff_from (prev : fval) (l : list fval) : list fval :=
  match l with
  | [] => []
  | x :: r => (x - prev)%F :: diff_from x r
  end.

Definition diff (l : list fval) : list fval :=
  match l with
  | [] => []
  | x :: r => NaN :: diff_from x r
  end.

(** [s.where(cond, other)] with the condition computed from the element. *)
Definition where_ (cond : fval -> bool) (other : fval) (l : list fval)
  : list fval :=
  map (fun x => if cond x then x else other) l.

(** [cumprod]: a missing element stays missing and is skipped by the
    running product. *)
Fixpoint cumprod_from (acc : fval) (l : list fval) : list fval :=
  match l with
  | [] => []
  | x :: r =>
      if is_nan x then NaN :: cumprod_from acc r
      else let y := (acc * x)%F in y :: cumprod_from y r
  end.

Definition cumprod (l : list fval) : list fval := cumprod_from (Fin 1) l.

Definition fmax (a b : fval) : fval := if (a <? b)%F then b else a.
Definition fmin (a b : fval) : fval := if (b <? a)%F then b else a.

Definition seen (m : option fval) : fval :=
  match m with Some y => y | None => NaN end.

Definition observe (f : fval -> fval -> fval) (m : option fval) (x : fval)
  : option fval :=
  if is_nan x then m
  else match m with Some y => Some (f y x) | None => Some x end.

(** [expanding().max()]: the largest valid value so far. *)
Fixpoint expanding_max_from (m : option fval) (l : list fval) : list fval :=
  match l with
  | [] => []
  | x :: r => seen (observe fmax m x) :: expanding_max_from (observe fmax m x) r
  end.

Definition expanding_max (l : list fval) : list fval :=
  expanding_max_from None l.

(** [min()] skips missing values. *)
Definition series_min (l : list fval) : fval :=
  seen (fold_left (observe fmin) l None).

Fixpoint zip_with (f : fval -> fval -> fval) (a b : list fval) : list fval :=
  match a, b with
  | x :: a', y :: b' => f x y :: zip_with f a' b'
  | _, _ => []
  end.

(** [rolling(window).mean()]: defined once the window is full of valid
    values. *)
Definition window_at (w : nat) (l : list fval) (i : nat) : list fval :=
  skipn (S i - w) (firstn (S i) l).

Definition rolling_mean (w : nat) (l : list fval) : list fval :=
  map (fun i =>
         let win := window_at w l i in
         if (length win <? w)%nat || existsb is_nan win then NaN
         else (fsum win / of_nat w)%F)
      (seq 0 (length l)).

End Pandas.

Import Pandas.

(** ** analysis/performance_analyzer.py *)

Module PerformanceAnalyzer.

(** The dictionary [calculate_metrics] returns. *)
Record metrics : Type := {
  total_return : fval;
  annual_return : fval;
  volatility : fval;
  sharpe_ratio : fval;
  max_drawdown : fval;
  win_rate_pct : fval
}.

(** [calculate_metrics] (lines 58-93), statement by statement.  The series
    handed to the analyzer holds finite values. *)
Definition daily_returns (portfolio_values : list Q) : list fval :=
  fillna (Fin 0) (pct_change (map Fin portfolio_values)).

Definition cumulative_returns (portfolio_values : list Q) : list fval :=
  cumprod (map (fadd (Fin 1)) (daily_returns portfolio_values)).

Definition rolling_max (portfolio_values : list Q) : list fval :=
  expanding_max (cumulative_returns portfolio_values).

Definition drawdowns (portfolio_values : list Q) : list fval :=
  zip_with (fun c m => ((c - m) / m * Fin 100)%F)
           (cumulative_returns portfolio_values)
           (rolling_max portfolio_values).

Definition calc_max_drawdown (portfolio_values : list Q) : fval :=
  fabs (series_min (drawdowns portfolio_values)).

Definition count (f : fval -> bool) (l : list fval) : nat :=
  length (filter f l).

Definition winning_days (dr : list fval) : nat :=
  count (fun r => (r >? Fin 0)%F) dr.

Definition moving_days (dr : list fval) : nat :=
  count (fun r => (r !=? Fin 0)%F) dr.

(** Line 84: the quotient of two Python integers, which raises on a zero
    divisor. *)
Definition calc_win_rate (dr : list fval) : outcome fval :=
  if (moving_days dr =? 0)%nat then Raise ZeroDivisionError
  else Ok (fin (inject_Z (Z.of_nat (winning_days dr))
                / inject_Z (Z.of_nat (moving_days dr)))).

Definition calc_total_return (portfolio_values : list Q) : outcome fval :=
  match portfolio_values with
  | [] => Raise IndexError
  | first :: _ =>
      Ok ((Fin (last portfolio_values first) / Fin first - Fin 1) * Fin 100)%F
  end.

Section Numeric.

(** [np.sqrt] and the float power [**]. *)
Variable np_sqrt : fval -> fval.
Variable np_power : fval -> fval -> fval.

(** [Series.std()]: the sample deviation (ddof = 1) of the valid values. *)
Definition variance (l : list fval) : fval :=
  let xs := dropna l in
  if (length xs <=? 1)%nat then NaN
  else
    let mean := (fsum xs / of_nat (length xs))%F in
    (fsum (map (fun x => (x - mean) * (x - mean))%F xs)
     / of_nat (length xs - 1))%F.

Definition std (l : list fval) : fval := np_sqrt (variance l).

Definition calc_annual_return (total : fval) (days : nat) : fval :=
  ((np_power (Fin 1 + total / Fin 100)
             (Fin (Qred (252 / inject_Z (Z.of_nat days)))) - Fin 1)
   * Fin 100)%F.

Definition calc_volatility (dr : list fval) : fval :=
  (std dr * np_sqrt (Fin 252) * Fin 100)%F.

Definition risk_free_rate : fval := Fin (3 # 100).

Definition calc_sharpe_ratio (annual vol : fval) : fval :=
  if (vol !=? Fin 0)%F
  then ((annual / Fin 100 - risk_free_rate) / (vol / Fin 100))%F
  else Fin 0.

Definition calculate_metrics (portfolio_values : list Q) : outcome metrics :=
  let dr := daily_returns portfolio_values in
  total <- calc_total_return portfolio_values ;;
  let days := length portfolio_values in
  let annual := calc_annual_return total days in
  let vol := calc_volatility dr in
  let sharpe := calc_sharpe_ratio annual vol in
  let mdd := calc_max_drawdown portfolio_values in
  win_rate <- calc_win_rate dr ;;
  Ok {| total_return := total;
        annual_return := annual;
        volatility := vol;
        sharpe_ratio := sharpe;
        max_drawdown := mdd;
        win_rate_pct := (win_rate * Fin 100)%F |}.

End Numeric.

End PerformanceAnalyzer.

(** ** analysis/factor_analysis.py: the RSI column *)

Module FactorAnalyzer.

(** [calculate_factors], lines 87-91. *)
Definition delta (close : list Q) : list fval := diff (map Fin close).

Definition gain (close : list Q) : list fval :=
  rolling_mean 14 (where_ (fun d => (d >? Fin 0)%F) (Fin 0) (delta close)).

Definition loss (close : list Q) : list fval :=
  rolling_mean 14
    (map fneg (where_ (fun d => (d <? Fin 0)%F) (Fin 0) (delta close))).

Definition rs (close : list Q) : list fval :=
  zip_with fdiv (gain close) (loss close).

Definition rsi (close : list Q) : list fval :=
  map (fun r => (Fin 100 - Fin 100 / (Fin 1 + r))%F) (rs close).

End FactorAnalyzer.

(** ** A synchronous-fill broker *)

Module SimBroker.

Record t : Type := {
  cash : Q;
  position : Z;
  last_close : Q;
  pending : option Order;
  commission : Q
}.

Definition with_pending (b : t) (o : option Order) : t :=
  {| cash := cash b; position := position b; last_close := last_close b;
     pending := o; commission := commission b |}.

(** Modelled from the spec: the Position & Order Manager of section 4.3,
    which the repository leaves to backtrader's broker.  A signal is ignored
    while an order is pending; a buy of size <= 0 and a sell without a
    position are not acted on; the sell size is the whole position. *)
Definition submit (o : operation) (b : t) (n : Z) : t * option Order :=
  match pending b with
  | Some _ => (b, None)
  | None =>
      match o with
      | buy_op =>
          if (n <=? 0)%Z then (b, None)
          else let ord := {| side := buy_op; size := n |} in
               (with_pending b (Some ord), Some ord)
      | sell_op =>
          if (position b =? 0)%Z then (b, None)
          else let ord := {| side := sell_op; size := position b |} in
               (with_pending b (Some ord), Some ord)
      end
  end.

(** Modelled from the spec: the fill of section 4.3 at the bar's close, with
    fill value = size * price and commission = rate * fill value. *)
Definition fill (b : t) (price : Q) : t * list notification :=
  match pending b with
  | None =>
      ({| cash := cash b; position := position b; last_close := price;
          pending := None; commission := commission b |}, [])
  | Some ord =>
      let fill_value := inject_Z (size ord) * price in
      let fee := commission b * fill_value in
      match side ord with
      | buy_op =>
          ({| cash := Qred (cash b - fill_value - fee);
              position := position b + size ord;
              last_close := price; pending := None;
              commission := commission b |},
           [{| status := Completed; isbuy := true;
               executed_price := Fin price |}])
      | sell_op =>
          ({| cash := Qred (cash b + fill_value - fee);
              position := position b - size ord;
              last_close := price; pending := None;
              commission := commission b |},
           [{| status := Completed; isbuy := false;
               executed_price := Fin price |}])
      end
  end.

(** Modelled from the spec: the Equity Point value of section 3,
    cash + position.size * last_close. *)
Definition value (b : t) : Q :=
  Qred (cash b + inject_Z (position b) * last_close b).

#[global] Instance broker : Broker t := {|
  getcash := cash;
  getvalue := value;
  position_size := position;
  buy := submit buy_op;
  sell := submit sell_op;
  resolve := fill;
  setcash := fun b c =>
    {| cash := c; position := position b; last_close := last_close b;
       pending := pending b; commission := commission b |};
  new_broker :=
    {| cash := 10000; position := 0; last_close := 0; pending := None;
       commission := 0 |}
|}.

End SimBroker.

(** ** What the specification says, for comparison with the code *)

Module Spec.

(** The entry rule in the words of section 4.2: previous <= threshold and
    current > threshold, close above the trend EMA, volume above 1.2 times
    its average, MACD line above zero, last operation not a buy. *)
Definition spec_entry_rule (p : params) (v : view)
    (last_operation : option operation) : bool :=
  (line_prev (macd_hist v) <=? macd_threshold p)%F
  && (curr_hist v >? macd_threshold p)%F
  && (Fin (close v) >? trend_ema v)%F
  && (Fin (volume v) >? volume_ma v * Fin (12 # 10))%F
  && (macd_line v >? Fin 0)%F
  && negb (last_operation_is last_operation buy_op).

(** Cross detection with the previous value taken to be the threshold, as
    section 4.2 asks for the first bar. *)
Definition spec_first_bar_cross_up (p : params) (v : view) : bool :=
  (macd_threshold p <? macd_threshold p)%F
  && (curr_hist v >? macd_threshold p)%F.

(** Section 6: every parameter positive and fast_period < slow_period. *)
Definition spec_valid_config (p : params) : bool :=
  (0 <? fastperiod p)%Z && (0 <? slowperiod p)%Z && (0 <? signalperiod p)%Z
  && (Fin 0 <? exit_profit_pct p)%F && (Fin 0 <? exit_loss_pct p)%F
  && (0 <? trend_ema_period p)%Z && (0 <? volume_ma_period p)%Z
  && (Fin 0 <? macd_threshold p)%F
  && (fastperiod p <? slowperiod p)%Z.

End Spec.

Import Spec.

(** ** Sample inputs *)

Module Samples.

Definition mk_view (hist_cur : fval) (hist_past : list fval) (c : Q) : view :=
  {| macd_hist := {| cur := hist_cur; past := hist_past |};
     macd_line := Fin 2;
     trend_ema := Fin 90;
     volume_ma := Fin 1000;
     close := c;
     volume := 5000 |}.

(** The histogram rises from the threshold itself. *)
Definition plateau_view : view := mk_view (Fin 1) [Fin 0] 100.

(** The histogram rises from below the threshold. *)
Definition cross_view : view := mk_view (Fin 1) [Fin (-1)] 100.

(** A first bar: no previous histogram value. *)
Definition first_bar_view : view := mk_view (Fin 1) [] 100.

Definition first_bar_down_view : view := mk_view (Fin (-1)) [] 100.

Definition half_threshold : params :=
  with_kwargs default_params
    {| kw_fastperiod := None; kw_slowperiod := None; kw_signalperiod := None;
       kw_exit_profit_pct := None; kw_exit_loss_pct := None;
       kw_trend_ema_period := None; kw_volume_ma_period := None;
       kw_macd_threshold := Some (Fin (1 # 2)) |}.

(** Periods so short that the rules run from the first bar on. *)
Definition short_periods : kwargs :=
  {| kw_fastperiod := Some 1%Z; kw_slowperiod := Some 1%Z;
     kw_signalperiod := Some 1%Z;
     kw_exit_profit_pct := None; kw_exit_loss_pct := None;
     kw_trend_ema_period := Some 1%Z; kw_volume_ma_period := Some 1%Z;
     kw_macd_threshold := None |}.

(** Fast period above the slow one. *)
Definition swapped_periods : kwargs :=
  {| kw_fastperiod := Some 26%Z; kw_slowperiod := Some 12%Z;
     kw_signalperiod := Some 9%Z;
     kw_exit_profit_pct := None; kw_exit_loss_pct := None;
     kw_trend_ema_period := None; kw_volume_ma_period := None;
     kw_macd_threshold := None |}.

Definition poor_broker : SimBroker.t :=
  {| SimBroker.cash := 50; SimBroker.position := 0;
     SimBroker.last_close := 100; SimBroker.pending := None;
     SimBroker.commission := 1 # 1000 |}.

Definition three_bars : list bar :=
  [ {| timestamp := 1; bar_view := mk_view (Fin (-1)) [] 100 |};
    {| timestamp := 2; bar_view := cross_view |};
    {| timestamp := 3; bar_view := mk_view (Fin 2) [Fin 1; Fin (-1)] 110 |} ].

Definition sample_engine (k : kwargs) : engine (B := SimBroker.t) :=
  {| cerebro_broker := setcash new_broker 100000;
     cerebro_strats := [k];
     initial_cash := 100000;
     data := three_bars;
     portfolio_values := [] |}.

(** An indicator that is missing before bar [first] (bars counted from 0)
    and [x] from then on. *)
Definition warm (first : nat) (x : fval) (i : nat) : fval :=
  if (i <? first)%nat then NaN else x.

(** A quiet market: close 100 and volume 5000 on every bar.  With periods
    26, 12 and 9 the MACD line is there from bar 25 and the histogram from
    bar 33, both 0; the 60-bar average of the close from bar 59, the 20-bar
    average of the volume from bar 19. *)
Definition flat_view (i : nat) : view :=
  {| macd_hist := {| cur := warm 33 (Fin 0) i;
                     past := map (warm 33 (Fin 0)) (rev (seq 0 i)) |};
     macd_line := warm 25 (Fin 0) i;
     trend_ema := warm 59 (Fin 100) i;
     volume_ma := warm 19 (Fin 5000) i;
     close := 100;
     volume := 5000 |}.

Definition flat_bars (n : nat) : list bar :=
  map (fun i => {| timestamp := Z.of_nat (S i); bar_view := flat_view i |})
      (seq 0 n).

(** An engine with 64 bars, more than any default lookback, and no strategy
    yet. *)
Definition fresh_engine : engine (B := SimBroker.t) :=
  add_data (new_engine 100000) (flat_bars 64).

Definition flat_values : list Q := [100; 100; 100].

Definition dipping_values : list Q := [100; 120; 90; 130].

Definition rising_close : list Q :=
  map inject_Z [1; 2; 3; 4; 5; 6; 7; 8; 9; 10; 11; 12; 13; 14; 15]%Z.

Definition flat_close : list Q :=
  map inject_Z [5; 5; 5; 5; 5; 5; 5; 5; 5; 5; 5; 5; 5; 5; 5]%Z.

(** A rational stand-in for the square root, exact on squares: the integer
    root of numerator times denominator over the denominator. *)
Definition approx_sqrt (a : fval) : fval :=
  match a with
  | Fin q =>
      if Qltb q 0 then NaN
      else fin (Z.sqrt (Qnum q * Zpos (Qden q)) # Qden q)
  | PInf => PInf
  | _ => NaN
  end.

(** A stand-in for the power: integer exponents only. *)
Definition approx_power (a b : fval) : fval :=
  match a, b with
  | Fin x, Fin y => fin (Qpower x (Qfloor y))
  | _, _ => NaN
  end.

End Samples.

(** ** Reference quantities on rationals *)

Module Reference.

(** The running peak of a series. *)
Fixpoint peaks_from (pk : Q) (l : list Q) : list Q :=
  match l with
  | [] => []
  | x :: r =>
      let pk' := if Qltb pk x then x else pk in pk' :: peaks_from pk' r
  end.

Definition peaks (l : list Q) : list Q :=
  match l with
  | [] => []
  | x :: r => x :: peaks_from x r
  end.

(** The drawdown of a value against a peak, in percent (not positive). *)
Definition drawdown_pct (v pk : Q) : Q := (v - pk) / pk * 100.

Definition qsum (l : list Q) : Q := fold_right Qplus 0 l.

Definition qmean (l : list Q) : Q :=
  qsum l / inject_Z (Z.of_nat (length l)).

(** The sample variance (divisor n - 1) of the samples [l]. *)
Definition sample_variance (l : list Q) : Q :=
  qsum (map (fun x => (x - qmean l) * (x - qmean l)) l)
  / inject_Z (Z.of_nat (length l - 1)).

(** A finite, non-negative value. *)
Definition amount (x : fval) : Prop := exists q : Q, x = Fin q /\ 0 <= q.

Fixpoint qmin_from (m : Q) (l : list Q) : Q :=
  match l with
  | [] => m
  | x :: r => qmin_from (if Qltb x m then x else m) r
  end.

End Reference.

(** ** backtest/backtest_engine.py: the plotted series *)

Module PerformanceStats.

(** [index[-n:]]: the last [n] labels, and the whole index when [n] is 0 or
    exceeds its length. *)
Definition last_labels (n : nat) (index : list Z) : list Z :=
  match n with
  | O => index
  | _ => skipn (length index - n) index
  end.

(** [plot], line 114: the recorded values under the last timestamps. *)
Definition plot_series (portfolio_values : list Q) (index : list Z)
  : outcome (list (Z * fval)) :=
  Main.pd_Series (map Fin portfolio_values)
                 (last_labels (length portfolio_values) index).

End PerformanceStats.

(** ** analysis/factor_analysis.py: MACD and price position *)

Module Factors.

(** One row of the price table. *)
Record candle : Type := { c_high : Q; c_low : Q; c_close : Q }.

(** [ewm(span, adjust=False).mean()] on finite values: seeded by the first
    value, then y = (1 - a) * y_prev + a * x with a = 2 / (span + 1). *)
Definition alpha (span : Z) : Q := 2 / (inject_Z span + 1).

Fixpoint ewm_from (a : Q) (prev : Q) (l : list Q) : list Q :=
  match l with
  | [] => []
  | x :: r =>
      let y := Qred ((1 - a) * prev + a * x) in y :: ewm_from a y r
  end.

Definition ewm_mean (span : Z) (l : list Q) : list Q :=
  match l with
  | [] => []
  | x :: r => x :: ewm_from (alpha span) x r
  end.

Definition sub_columns (a b : list Q) : list Q :=
  map (fun xy => Qred (fst xy - snd xy)) (combine a b).

(** Lines 94-98. *)
Definition macd (close : list Q) : list Q :=
  sub_columns (ewm_mean 12 close) (ewm_mean 26 close).

Definition signal (close : list Q) : list Q := ewm_mean 9 (macd close).

Definition macd_hist (close : list Q) : list Q :=
  sub_columns (macd close) (signal close).

(** [rolling(w).min()] and [rolling(w).max()]: defined once the window is
    full of valid values. *)
Definition rolling_agg (f : fval -> fval -> fval) (w : nat) (l : list fval)
  : list fval :=
  map (fun i =>
         let win := window_at w l i in
         if (length win <? w)%nat || existsb is_nan win then NaN
         else seen (fold_left (observe f) win None))
      (seq 0 (length l)).

Definition rolling_min : nat -> list fval -> list fval := rolling_agg fmin.
Definition rolling_max : nat -> list fval -> list fval := rolling_agg fmax.

(** Lines 101-102. *)
Definition price_position (rows : list candle) : list fval :=
  let close := map (fun r => Fin (c_close r)) rows in
  let lo := rolling_min 20 (map (fun r => Fin (c_low r)) rows) in
  let hi := rolling_max 20 (map (fun r => Fin (c_high r)) rows) in
  zip_with fdiv (zip_with fsub close lo) (zip_with fsub hi lo).

End Factors.

(** ** More sample inputs *)

Module MoreSamples.

Definition holding_broker : SimBroker.t :=
  {| SimBroker.cash := 5000; SimBroker.position := 950;
     SimBroker.last_close := 100; SimBroker.pending := None;
     SimBroker.commission := 1 # 1000 |}.

Definition bought_at_100 : strategy :=
  {| buy_price := Some (Fin 100); order := None;
     last_operation := Some buy_op |}.

(** Close above the trend, histogram steady: no indicator exit. *)
Definition quiet_view (c : Q) : view :=
  {| macd_hist := {| cur := Fin 1; past := [Fin 1] |};
     macd_line := Fin 2;
     trend_ema := Fin 90;
     volume_ma := Fin 1000;
     close := c;
     volume := 5000 |}.

Definition some_candles : list Factors.candle :=
  map (fun z => {| Factors.c_high := inject_Z (z + 2);
                   Factors.c_low := inject_Z (z - 1);
                   Factors.c_close := inject_Z z |})
      [10; 11; 12; 13; 12; 11; 10; 11; 12; 13; 14; 15; 14; 13; 12; 11; 12;
       13; 14; 15; 16; 15]%Z.

Definition wavy_close : list Q :=
  map inject_Z [10; 11; 12; 11; 10; 11; 12; 13; 12; 11; 12; 13; 14; 13; 12;
                13]%Z.

End MoreSamples.

(** * Properties *)

Import Samples.

Unset Implicit Arguments.

(** ** Comparisons of floating values *)

Section Comparisons.

Lemma Qltb_lt (p q : Q) : Qltb p q = true <-> p < q.
Proof.
  unfold Qltb. rewrite negb_true_iff. split; intro E.
  - apply Qnot_le_lt. intro L. apply Qle_bool_iff in L. congruence.
  - destruct (Qle_bool q p) eqn:L; [|reflexivity].
    apply Qle_bool_iff in L. exfalso. apply (Qlt_not_le _ _ E L).
Qed.

Lemma Qltb_ge (p q : Q) : Qltb p q = false <-> q <= p.
Proof.
  unfold Qltb. rewrite negb_false_iff. apply Qle_bool_iff.
Qed.

Lemma Qeq_bool_false (p q : Q) : Qeq_bool p q = false <-> ~ p == q.
Proof.
  split.
  - intros E Heq. apply Qeq_bool_iff in Heq. congruence.
  - intro N. destruct (Qeq_bool p q) eqn:E; [|reflexivity].
    apply Qeq_bool_iff in E. contradiction.
Qed.

Lemma fin_eq (p q : Q) : p == q -> fin p = fin q.
Proof. intro E. unfold fin. f_equal. now apply Qred_complete. Qed.

Lemma fleb_zero_not_pos (t : fval) :
  (t <=? Fin 0)%F = true -> (Fin 0 <? t)%F = false.
Proof.
  destruct t as [q| | |]; simpl; try reflexivity; try discriminate.
  unfold fleb; simpl. rewrite orb_true_iff, Qltb_lt, Qeq_bool_iff, Qltb_ge.
  intros [L|E]; [now apply Qlt_le_weak | rewrite E; apply Qle_refl].
Qed.

Lemma fleb_zero_neg_not_neg (t : fval) :
  (t <=? Fin 0)%F = true -> (Fin 0 >? - t)%F = false.
Proof.
  destruct t as [q| | |]; simpl; try reflexivity; try discriminate.
  unfold fleb, fgtb; simpl.
  rewrite orb_true_iff, Qltb_lt, Qeq_bool_iff, Qltb_ge.
  intro C. rewrite Qred_correct. destruct C as [L|E]; lra.
Qed.

End Comparisons.

(** ** The signal rules *)

Section Signals.

Lemma last_operation_is_false (lo : option operation) (o : operation) :
  last_operation_is lo o = false <-> lo <> Some o.
Proof.
  destruct lo as [[]|], o; simpl; split; intro E;
    try reflexivity; try discriminate; try congruence.
Qed.

Lemma prev_hist_lagged (v : view) :
  (2 <= line_len (macd_hist v))%nat -> prev_hist v = line_prev (macd_hist v).
Proof.
  intro L. unfold prev_hist.
  destruct (Nat.ltb_spec 1 (line_len (macd_hist v))); [reflexivity | lia].
Qed.

Lemma prev_hist_first_bar (v : view) :
  past (macd_hist v) = [] -> prev_hist v = Fin 0.
Proof.
  intro E. unfold prev_hist, line_len. now rewrite E.
Qed.

(** C1, as the code has it: with two histogram values at hand, [should_buy]
    fires exactly when the previous histogram value is strictly below the
    threshold and the current one strictly above it, the close is above the
    trend EMA, the volume is above 1.2 times its average, the MACD line is
    above zero and the last operation is not a buy. *)
Theorem should_buy_fires_exactly (p : params) (v : view)
    (lo : option operation) :
  (2 <= line_len (macd_hist v))%nat ->
  should_buy p v lo = true <->
  (line_prev (macd_hist v) <? macd_threshold p)%F = true
  /\ (curr_hist v >? macd_threshold p)%F = true
  /\ (Fin (close v) >? trend_ema v)%F = true
  /\ (Fin (volume v) >? volume_ma v * Fin (12 # 10))%F = true
  /\ (macd_line v >? Fin 0)%F = true
  /\ lo <> Some buy_op.
Proof.
  intro L.
  unfold should_buy, macd_cross_up, price_above_trend, volume_increase,
    macd_above_zero.
  rewrite (prev_hist_lagged v L), !andb_true_iff, negb_true_iff,
    last_operation_is_false.
  tauto.
Qed.

Lemma should_buy_fires_exactly_witness :
  (2 <= line_len (macd_hist cross_view))%nat
  /\ (should_buy default_params cross_view None = true <->
      (line_prev (macd_hist cross_view) <? macd_threshold default_params)%F
        = true
      /\ (curr_hist cross_view >? macd_threshold default_params)%F = true
      /\ (Fin (close cross_view) >? trend_ema cross_view)%F = true
      /\ (Fin (volume cross_view) >? volume_ma cross_view * Fin (12 # 10))%F
         = true
      /\ (macd_line cross_view >? Fin 0)%F = true
      /\ None <> Some buy_op).
Proof.
  split.
  - cbv; lia.
  - apply (should_buy_fires_exactly default_params cross_view None).
    cbv; lia.
Defined.

(** C1 as the specification words it fails where the histogram leaves a
    plateau at the threshold: the rule of the specification holds and
    [should_buy] does not fire. *)
Lemma should_buy_plateau_counterexample :
  (2 <= line_len (macd_hist plateau_view))%nat
  /\ spec_entry_rule default_params plateau_view None = true
  /\ should_buy default_params plateau_view None = false.
Proof.
  split; [cbv; lia | split; vm_compute; reflexivity].
Qed.

(** C5, as the code has it: at a first bar the previous histogram value is
    taken to be 0, the two cross tests compare 0 with the threshold, and no
    cross is detected there when the threshold is at most 0, as with the
    default threshold. *)
Theorem first_bar_cross_detection (p : params) (v : view)
    (lo : option operation) :
  past (macd_hist v) = [] ->
  prev_hist v = Fin 0
  /\ macd_cross_up p v
     = ((Fin 0 <? macd_threshold p)%F && (curr_hist v >? macd_threshold p)%F)
  /\ macd_cross_down p v
     = ((Fin 0 >? - macd_threshold p)%F
        && (curr_hist v <? - macd_threshold p)%F)
  /\ ((macd_threshold p <=? Fin 0)%F = true ->
      macd_cross_up p v = false
      /\ macd_cross_down p v = false
      /\ should_buy p v lo = false).
Proof.
  intro E. pose proof (prev_hist_first_bar v E) as P.
  unfold should_buy, macd_cross_up, macd_cross_down. rewrite P.
  repeat split; try reflexivity;
    try (rewrite (fleb_zero_not_pos _ H); reflexivity);
    try (rewrite (fleb_zero_neg_not_neg _ H); reflexivity).
Qed.

Lemma first_bar_cross_detection_witness :
  past (macd_hist first_bar_view) = []
  /\ (macd_threshold default_params <=? Fin 0)%F = true
  /\ macd_cross_up default_params first_bar_view = false
  /\ macd_cross_down default_params first_bar_down_view = false.
Proof.
  split; [reflexivity | split; [reflexivity | split]].
  - apply (first_bar_cross_detection default_params first_bar_view None);
      reflexivity.
  - apply (first_bar_cross_detection default_params first_bar_down_view None);
      reflexivity.
Defined.

(** C5 as the specification words it fails for a positive threshold: at a
    first bar the code compares 0, not the threshold, and reports a cross
    that the rule of the specification excludes. *)
Lemma first_bar_false_cross_counterexample :
  past (macd_hist first_bar_view) = []
  /\ prev_hist first_bar_view = Fin 0
  /\ macd_threshold half_threshold = Fin (1 # 2)
  /\ spec_first_bar_cross_up half_threshold first_bar_view = false
  /\ macd_cross_up half_threshold first_bar_view = true
  /\ should_buy half_threshold first_bar_view None = true
  /\ macd_cross_down half_threshold first_bar_down_view = true.
Proof.
  repeat split; vm_compute; reflexivity.
Qed.

End Signals.

(** ** The strategy's [next] *)

Section NextProperties.
Context {B : Type} {HB : Broker B}.

Lemma should_sell_no_position (p : params) (v : view)
    (bp : option fval) (lo : option operation) :
  should_sell p v 0 bp lo = false.
Proof. reflexivity. Qed.

Lemma py_div_ok (a b : Q) : ~ b == 0 -> py_div a b = Ok (Qred (a / b)).
Proof.
  intro N. unfold py_div. now rewrite (proj2 (Qeq_bool_false b 0) N).
Qed.

(** [next] raises only on a zero close. *)
Lemma next_returns (p : params) (v : view) (st : strategy) (b : B) :
  ~ close v == 0 -> exists r, next p v st b = Ok r.
Proof.
  intro N. unfold next.
  destruct (order st); [eauto|].
  destruct (position_size b =? 0)%Z.
  - destruct (should_buy p v (last_operation st)); [|eauto].
    rewrite (py_div_ok _ _ N); simpl.
    destruct (buy b _); eauto.
  - destruct (should_sell p v _ _ _); [|eauto].
    destruct (sell b _); eauto.
Qed.

(** C4, as the code has it: there is no InsufficientFunds or NoPosition
    error.  With no order pending and no position, a sell is never
    requested: the exit rule is false and only the entry rule is consulted;
    when that does not fire the whole state is unchanged.  When it fires,
    the computed size, whatever its sign, goes to [self.buy]; [next] keeps
    the order handle it gets back, leaves the buy price alone and returns
    normally, so that the loop proceeds; if the broker declines the order,
    cash and position are as before and no order is pending. *)
Theorem next_drops_no_signal (p : params) (v : view) (st : strategy) (b : B) :
  order st = None ->
  position_size b = 0%Z ->
  should_sell p v (position_size b) (buy_price st) (last_operation st) = false
  /\ (should_buy p v (last_operation st) = false ->
      next p v st b = Ok (st, b))
  /\ (should_buy p v (last_operation st) = true ->
      ~ close v == 0 ->
      let n := py_int (Qred (getcash b * (95 # 100) / close v)) in
      exists st',
        next p v st b = Ok (st', fst (buy b n))
        /\ order st' = snd (buy b n)
        /\ buy_price st' = buy_price st
        /\ (buy b n = (b, None) ->
            next p v st b = Ok (st', b) /\ order st' = None)).
Proof.
  intros O P. rewrite P. split; [reflexivity|].
  unfold next. rewrite O, P. simpl. split; intro S; rewrite S.
  - reflexivity.
  - intro N. rewrite (py_div_ok _ _ N). simpl.
    destruct (buy b _) as [b' o]. simpl. eexists. split; [reflexivity|].
    split; [reflexivity|]. split; [reflexivity|].
    intro D. injection D as -> ->. split; reflexivity.
Qed.

End NextProperties.

Lemma next_drops_no_signal_witness :
  order init = None
  /\ position_size poor_broker = 0%Z
  /\ should_buy default_params plateau_view (last_operation init) = false
  /\ next default_params plateau_view init poor_broker = Ok (init, poor_broker)
  /\ should_buy default_params cross_view (last_operation init) = true
  /\ ~ close cross_view == 0
  /\ buy poor_broker
         (py_int (Qred (getcash poor_broker * (95 # 100) / close cross_view)))
     = (poor_broker, None)
  /\ exists st',
       next default_params cross_view init poor_broker = Ok (st', poor_broker)
       /\ order st' = None
       /\ buy_price st' = buy_price init.
Proof.
  assert (N : ~ close cross_view == 0)
    by (intro E; vm_compute in E; discriminate).
  assert (D : buy poor_broker
                (py_int (Qred (getcash poor_broker * (95 # 100)
                               / close cross_view)))
              = (poor_broker, None)) by reflexivity.
  split; [reflexivity | split; [reflexivity | split; [reflexivity|]]].
  split.
  - apply (next_drops_no_signal default_params plateau_view init poor_broker);
      reflexivity.
  - split; [reflexivity | split; [exact N | split; [exact D|]]].
    assert (O0 : order init = None) by reflexivity.
    assert (P0 : position_size poor_broker = 0%Z) by reflexivity.
    assert (S0 : should_buy default_params cross_view (last_operation init)
                 = true) by reflexivity.
    destruct (next_drops_no_signal default_params cross_view init poor_broker
                O0 P0) as [_ [_ S]].
    destruct (S S0 N) as [st' [_ [_ [P K]]]].
    destruct (K D) as [E O].
    exists st'. split; [exact E | split; [exact O | exact P]].
Defined.

(** C4 as the specification words it fails on a buy signal whose computed
    size is 0: no order is placed and cash and position stay, but
    [last_operation] becomes 'buy'. *)
Lemma next_zero_size_counterexample :
  should_buy default_params cross_view (last_operation init) = true
  /\ py_int (Qred (getcash poor_broker * (95 # 100) / close cross_view)) = 0%Z
  /\ exists st',
       next default_params cross_view init poor_broker = Ok (st', poor_broker)
       /\ order st' = None
       /\ last_operation init = None
       /\ last_operation st' = Some buy_op
       /\ last_operation st' <> last_operation init.
Proof.
  split; [vm_compute; reflexivity | split; [vm_compute; reflexivity|]].
  eexists. split; [vm_compute; reflexivity|].
  repeat split; try reflexivity. discriminate.
Qed.

(** ** The engine *)

Section EngineProperties.
Context {B : Type} {HB : Broker B}.

Lemma step_returns (p : params) (i : nat) (x : bar) (s : sim) :
  ~ close (bar_view x) == 0 ->
  exists s', step p i x s = Ok s'
             /\ length (values s') = S (length (values s)).
Proof.
  intro N. unfold step.
  destruct (S i <? minperiod p)%nat.
  - simpl. destruct (resolve (broker s) _) as [b2 ns]. eexists. split;
      [reflexivity|]. simpl. unfold ValueAnalyzer_next.
    rewrite length_app. simpl. lia.
  - destruct (next_returns p (bar_view x) (strat s) (broker s) N) as [r E]. rewrite E.
    simpl. destruct (resolve (snd r) _) as [b2 ns]. eexists. split;
      [reflexivity|]. simpl. unfold ValueAnalyzer_next.
    rewrite length_app. simpl. lia.
Qed.

Lemma loop_returns (p : params) (bars : list bar) :
  Forall (fun x => ~ close (bar_view x) == 0) bars ->
  forall (i : nat) (s : sim),
  exists s', loop p i bars s = Ok s'
             /\ length (values s') = (length (values s) + length bars)%nat.
Proof.
  induction 1 as [|x rest N _ IH]; intros i s; simpl.
  - exists s. split; [reflexivity | lia].
  - destruct (step_returns p i x s N) as [s1 [E1 L1]]. rewrite E1. simpl.
    destruct (IH (S i) s1) as [s2 [E2 L2]]. exists s2. split; [exact E2|].
    lia.
Qed.

Lemma run_returns (e : engine (B := B)) :
  Forall (fun x => ~ close (bar_view x) == 0) (data e) ->
  exists e' : engine (B := B),
    run e = Ok e' /\ length (portfolio_values e') = length (data e).
Proof.
  intro F. unfold run.
  destruct (loop_returns (with_kwargs default_params
                            (hd no_kwargs (cerebro_strats e))) (data e) F 0
              {| strat := init; broker := cerebro_broker e;
                 values := ValueAnalyzer_init |}) as [s [E L]].
  rewrite E. simpl. eexists. split; [reflexivity|]. simpl.
  unfold ValueAnalyzer_get_analysis. rewrite L. reflexivity.
Qed.

(** C8, as the code has it: [add_strategy] validates nothing.  Whatever the
    keyword arguments, it succeeds and registers them unchanged, nothing else
    of the engine changes, and, the data being at least as long as the
    lookback of every registered strategy, the run that follows goes through
    every bar with them. *)
Theorem add_strategy_accepts_all (e : engine (B := B)) (k : kwargs) :
  exists e' : engine (B := B),
    add_strategy e k = Ok e'
    /\ cerebro_strats e' = cerebro_strats e ++ [k]
    /\ cerebro_broker e' = cerebro_broker e
    /\ data e' = data e
    /\ portfolio_values e' = portfolio_values e
    /\ (Forall (fun x => ~ close (bar_view x) == 0) (data e) ->
        Forall (fun k' => (minperiod (with_kwargs default_params k')
                           <= length (data e))%nat)
               (cerebro_strats e ++ [k]) ->
        exists r : engine (B := B),
          run e' = Ok r
          /\ cerebro_strats r = cerebro_strats e ++ [k]
          /\ length (portfolio_values r) = length (data e)).
Proof.
  eexists. split; [reflexivity|]. repeat split; try reflexivity.
  intros F _.
  destruct (run_returns
              {| cerebro_broker := cerebro_broker e;
                 cerebro_strats := cerebro_strats e ++ [k];
                 initial_cash := initial_cash e;
                 data := data e;
                 portfolio_values := portfolio_values e |} F) as [r [R L]].
  exists r. split; [exact R|]. split; [|exact L].
  unfold run in R. cbn [cerebro_strats cerebro_broker data initial_cash] in R.
  destruct (loop _ _ _ _) as [s|x]; simpl in R; [|discriminate].
  injection R as <-. reflexivity.
Qed.

End EngineProperties.

Lemma add_strategy_accepts_all_witness :
  Forall (fun x => ~ close (bar_view x) == 0) (data fresh_engine)
  /\ Forall (fun k' => (minperiod (with_kwargs default_params k')
                        <= length (data fresh_engine))%nat)
            (cerebro_strats fresh_engine ++ [swapped_periods])
  /\ exists e' r : engine (B := SimBroker.t),
       add_strategy fresh_engine swapped_periods = Ok e'
       /\ cerebro_strats e' = [swapped_periods]
       /\ run e' = Ok r
       /\ cerebro_strats r = [swapped_periods]
       /\ length (portfolio_values r) = length (data fresh_engine).
Proof.
  assert (F : Forall (fun x => ~ close (bar_view x) == 0)
                     (data fresh_engine)).
  { unfold fresh_engine, add_data, flat_bars. cbn [data].
    apply Forall_map, Forall_forall. intros i _ E.
    vm_compute in E. discriminate. }
  assert (M : Forall (fun k' => (minperiod (with_kwargs default_params k')
                                 <= length (data fresh_engine))%nat)
                     (cerebro_strats fresh_engine ++ [swapped_periods])).
  { constructor; [vm_compute; lia | constructor]. }
  split; [exact F | split; [exact M|]].
  destruct (add_strategy_accepts_all fresh_engine swapped_periods)
    as [e' [A [S [_ [_ [_ R]]]]]].
  destruct (R F M) as [r [Rr [Sr Lr]]].
  exists e', r.
  split; [exact A|]. split; [exact S|]. split; [exact Rr|].
  split; [exact Sr | exact Lr].
Defined.

(** C8 as the specification words it fails.  On 64 bars, more than the
    60 bars of the longest lookback, a configuration with the fast period
    above the slow one is registered as the one strategy of the run and
    simulated: a value is recorded for each bar.  The volume never exceeds
    1.2 times its average, so no order is placed and every value is the
    initial cash.  The defaults themselves (threshold 0) are not all
    positive. *)
Lemma invalid_config_counterexample :
  spec_valid_config (with_kwargs default_params swapped_periods) = false
  /\ spec_valid_config default_params = false
  /\ minperiod (with_kwargs default_params swapped_periods) = 60%nat
  /\ length (data fresh_engine) = 64%nat
  /\ exists e' r : engine (B := SimBroker.t),
       add_strategy fresh_engine swapped_periods = Ok e'
       /\ cerebro_strats e' = [swapped_periods]
       /\ run e' = Ok r
       /\ portfolio_values r = repeat 100000 64.
Proof.
  split; [vm_compute; reflexivity | split; [vm_compute; reflexivity|]].
  split; [vm_compute; reflexivity | split; [vm_compute; reflexivity|]].
  eexists. eexists. split; [reflexivity|].
  split; [reflexivity|]. split; vm_compute; reflexivity.
Qed.

(** ** The series that main.py hands to the analyzer *)

Section Alignment.

Lemma align_fold_length (ev : list Q) (l : list nat) :
  forall acc : list Q,
  length (fold_left (Main.align_step ev) l acc) = (length acc + length l)%nat.
Proof.
  induction l as [|i l IH]; intro acc; simpl; [lia|].
  rewrite IH. unfold Main.align_step.
  destruct (i <? length ev)%nat; rewrite length_app; simpl; lia.
Qed.

Lemma align_length (ev : list Q) (n : nat) : length (Main.align ev n) = n.
Proof.
  unfold Main.align. rewrite align_fold_length, length_seq. reflexivity.
Qed.

Lemma firstn_snoc (l : list Q) :
  forall k : nat, (k < length l)%nat ->
  firstn (S k) l = firstn k l ++ [nth k l 0].
Proof.
  induction l as [|a l IH]; intros k L; simpl in L; [lia|].
  destruct k as [|k]; [reflexivity|].
  change (firstn (S (S k)) (a :: l)) with (a :: firstn (S k) l).
  rewrite IH by lia. reflexivity.
Qed.

Lemma align_fold_prefix (ev : list Q) (m : nat) :
  forall k : nat, (k + m <= length ev)%nat ->
  fold_left (Main.align_step ev) (seq k m) (firstn k ev) = firstn (k + m) ev.
Proof.
  induction m as [|m IH]; intros k L; simpl.
  - now rewrite Nat.add_0_r.
  - unfold Main.align_step at 2.
    destruct (Nat.ltb_spec k (length ev)); [|lia].
    rewrite <- firstn_snoc by assumption.
    rewrite IH by lia. f_equal. lia.
Qed.

(** When the engine recorded one value per bar, the aligned list is the
    recorded one. *)
Lemma align_exact (ev : list Q) : Main.align ev (length ev) = ev.
Proof.
  unfold Main.align.
  change (@nil Q) with (firstn 0 ev).
  rewrite (align_fold_prefix ev (length ev) 0) by lia.
  apply firstn_all.
Qed.

Lemma ffill_from_valid (l : list Q) :
  forall prev : fval, Main.ffill_from prev (map Fin l) = map Fin l.
Proof.
  induction l as [|x l IH]; intro prev; simpl; [reflexivity|].
  now rewrite IH.
Qed.

Lemma ffill_valid (l : list Q) : Main.ffill (map Fin l) = map Fin l.
Proof. apply ffill_from_valid. Qed.

Lemma bfill_valid (l : list Q) : Main.bfill (map Fin l) = map Fin l.
Proof.
  unfold Main.bfill. rewrite <- map_rev, ffill_valid, map_rev.
  apply rev_involutive.
Qed.

Lemma combine_fst {A C : Type} (a : list A) :
  forall c : list C, length a = length c -> map fst (combine a c) = a.
Proof.
  induction a as [|x a IH]; intros [|y c] L; simpl in *;
    try reflexivity; try discriminate.
  f_equal. apply IH. lia.
Qed.

Lemma combine_snd {A C : Type} (a : list A) :
  forall c : list C, length a = length c -> map snd (combine a c) = c.
Proof.
  induction a as [|x a IH]; intros [|y c] L; simpl in *;
    try reflexivity; try discriminate.
  f_equal. apply IH. lia.
Qed.

Lemma on_values_valid (f : list fval -> list fval) (idx : list Z)
    (vals : list Q) :
  length idx = length vals ->
  f (map Fin vals) = map Fin vals ->
  Main.on_values f (combine idx (map Fin vals)) = combine idx (map Fin vals).
Proof.
  intros L E. unfold Main.on_values.
  rewrite combine_fst, combine_snd, E by (rewrite length_map; exact L).
  reflexivity.
Qed.

Lemma portfolio_series_returns (ev : list Q) (bars : list bar) :
  Main.portfolio_series ev bars
  = Ok (combine (map timestamp bars)
                (map Fin (Main.align ev (length bars)))).
Proof.
  unfold Main.portfolio_series, Main.pd_Series.
  rewrite !length_map, align_length, Nat.eqb_refl. simpl.
  assert (L : length (map timestamp bars)
              = length (Main.align ev (length bars)))
    by now rewrite length_map, align_length.
  rewrite (on_values_valid Main.ffill _ _ L (ffill_valid _)).
  rewrite (on_values_valid Main.bfill _ _ L (bfill_valid _)).
  reflexivity.
Qed.

End Alignment.

(** C2: when the run goes through every bar (no close is zero, which is the
    one way [next] can raise), the engine has recorded exactly one value per
    bar; the series main.py builds from it carries these values under the
    bars' own timestamps, so it has the length of the bar sequence and, the
    bars being in ascending order, non-decreasing timestamps.  Whatever the
    engine recorded, the series of main.py has one point per bar, under
    that bar's timestamp. *)
Theorem equity_sequence_per_bar {B : Type} {HB : Broker B}
    (e : engine (B := B)) :
  Forall (fun x => ~ close (bar_view x) == 0) (data e) ->
  Sorted Z.le (map timestamp (data e)) ->
  exists (e' : engine (B := B)) (s : list (Z * fval)),
    run e = Ok e'
    /\ length (portfolio_values e') = length (data e)
    /\ Main.portfolio_series (portfolio_values e') (data e) = Ok s
    /\ map snd s = map Fin (portfolio_values e')
    /\ map fst s = map timestamp (data e)
    /\ length s = length (data e)
    /\ Sorted Z.le (map fst s)
    /\ forall recorded : list Q,
         exists s' : list (Z * fval),
           Main.portfolio_series recorded (data e) = Ok s'
           /\ length s' = length (data e)
           /\ map fst s' = map timestamp (data e).
Proof.
  intros F S.
  destruct (run_returns e F) as [e' [R L]].
  exists e', (combine (map timestamp (data e))
                      (map Fin (portfolio_values e'))).
  split; [exact R|]. split; [exact L|].
  assert (L' : length (map timestamp (data e))
               = length (map Fin (portfolio_values e')))
    by now rewrite !length_map.
  split.
  - rewrite portfolio_series_returns, <- L, align_exact. reflexivity.
  - rewrite (combine_snd _ _ L'), (combine_fst _ _ L').
    split; [reflexivity|]. split; [reflexivity|].
    split; [rewrite length_combine, L', Nat.min_id, length_map; exact L|].
    split; [assumption|].
    intro recorded. eexists. split; [apply portfolio_series_returns|].
    assert (L2 : length (map timestamp (data e))
                 = length (map Fin (Main.align recorded (length (data e)))))
      by now rewrite !length_map, align_length.
    rewrite (combine_fst _ _ L2), length_combine, <- L2, Nat.min_id,
      length_map.
    split; reflexivity.
Qed.

Lemma equity_sequence_per_bar_witness :
  Forall (fun x => ~ close (bar_view x) == 0)
         (data (sample_engine short_periods))
  /\ Sorted Z.le (map timestamp (data (sample_engine short_periods)))
  /\ exists (e' : engine (B := SimBroker.t)) (s : list (Z * fval)),
       run (sample_engine short_periods) = Ok e'
       /\ length (portfolio_values e')
          = length (data (sample_engine short_periods))
       /\ Main.portfolio_series (portfolio_values e')
            (data (sample_engine short_periods)) = Ok s
       /\ map snd s = map Fin (portfolio_values e')
       /\ map fst s = map timestamp (data (sample_engine short_periods))
       /\ length s = length (data (sample_engine short_periods))
       /\ Sorted Z.le (map fst s)
       /\ forall recorded : list Q,
            exists s' : list (Z * fval),
              Main.portfolio_series recorded
                (data (sample_engine short_periods)) = Ok s'
              /\ length s' = length (data (sample_engine short_periods))
              /\ map fst s' = map timestamp
                                (data (sample_engine short_periods)).
Proof.
  assert (F : Forall (fun x => ~ close (bar_view x) == 0)
                     (data (sample_engine short_periods))).
  { simpl. repeat constructor; intro E; vm_compute in E; discriminate. }
  assert (S : Sorted Z.le (map timestamp (data (sample_engine short_periods)))).
  { simpl. repeat constructor; vm_compute; discriminate. }
  split; [exact F | split; [exact S|]].
  exact (equity_sequence_per_bar (sample_engine short_periods) F S).
Defined.

(** ** Daily returns *)

Section DailyReturns.
Import PerformanceAnalyzer.

Lemma pct_from_length (l : list fval) :
  forall prev : fval, length (pct_from prev l) = length l.
Proof.
  induction l as [|x l IH]; intro prev; simpl; [reflexivity|].
  now rewrite IH.
Qed.

Lemma pct_change_length (l : list fval) : length (pct_change l) = length l.
Proof.
  destruct l as [|x l]; simpl; [reflexivity|]. now rewrite pct_from_length.
Qed.

Lemma daily_returns_length (vs : list Q) :
  length (daily_returns vs) = length vs.
Proof.
  unfold daily_returns, fillna.
  now rewrite length_map, pct_change_length, length_map.
Qed.

Lemma daily_returns_cons (v0 : Q) (rest : list Q) :
  daily_returns (v0 :: rest)
  = Fin 0 :: fillna (Fin 0) (pct_from (Fin v0) (map Fin rest)).
Proof. reflexivity. Qed.

Lemma fillna_valid (l : list fval) :
  dropna (fillna (Fin 0) l) = fillna (Fin 0) l.
Proof.
  induction l as [|x l IH]; simpl; [reflexivity|].
  destruct x; simpl; now rewrite IH.
Qed.

Lemma no_moving_days (dr : list fval) :
  Forall (fun r => (r =? Fin 0)%F = true) dr -> moving_days dr = 0%nat.
Proof.
  unfold moving_days, count, fneb.
  induction 1 as [|r dr E _ IH]; simpl; [reflexivity|].
  now rewrite E.
Qed.

Section Numeric.
Variable np_sqrt : fval -> fval.
Variable np_power : fval -> fval -> fval.

Lemma calculate_metrics_unfold (v0 : Q) (rest : list Q) :
  let vs := v0 :: rest in
  let dr := daily_returns vs in
  let total :=
    ((Fin (last vs v0) / Fin v0 - Fin 1) * Fin 100)%F in
  calculate_metrics np_sqrt np_power vs
  = win_rate <- calc_win_rate dr ;;
    Ok {| total_return := total;
          annual_return := calc_annual_return np_power total (length vs);
          volatility := calc_volatility np_sqrt dr;
          sharpe_ratio :=
            calc_sharpe_ratio (calc_annual_return np_power total (length vs))
                              (calc_volatility np_sqrt dr);
          max_drawdown := calc_max_drawdown vs;
          win_rate_pct := (win_rate * Fin 100)%F |}.
Proof. reflexivity. Qed.

Lemma win_rate_all_flat (vs : list Q) :
  vs <> [] ->
  Forall (fun r => (r =? Fin 0)%F = true) (daily_returns vs) ->
  calculate_metrics np_sqrt np_power vs = Raise ZeroDivisionError.
Proof.
  intros N F. destruct vs as [|v0 rest]; [contradiction|].
  rewrite calculate_metrics_unfold. unfold calc_win_rate.
  rewrite (no_moving_days _ F). reflexivity.
Qed.

(** C6: the win rate is the number of days with a positive return over the
    number of days with a non-zero return; when every return is zero the
    division of the two counts raises ZeroDivisionError and no metrics are
    returned. *)
Theorem win_rate_of_daily_returns (vs : list Q) :
  vs <> [] ->
  (Forall (fun r => (r =? Fin 0)%F = true) (daily_returns vs) ->
   calculate_metrics np_sqrt np_power vs = Raise ZeroDivisionError)
  /\ (moving_days (daily_returns vs) <> 0%nat ->
      exists m : metrics,
        calculate_metrics np_sqrt np_power vs = Ok m
        /\ win_rate_pct m
           = (fin (inject_Z (Z.of_nat (winning_days (daily_returns vs)))
                   / inject_Z (Z.of_nat (moving_days (daily_returns vs))))
              * Fin 100)%F).
Proof.
  intro N. destruct vs as [|v0 rest]; [contradiction|].
  split; [apply win_rate_all_flat; assumption|].
  rewrite calculate_metrics_unfold. unfold calc_win_rate.
  - intro M. destruct (Nat.eqb_spec (moving_days (daily_returns (v0 :: rest))) 0);
      [contradiction|].
    simpl. eexists. split; reflexivity.
Qed.

End Numeric.

Lemma win_rate_of_daily_returns_witness :
  flat_values <> []
  /\ Forall (fun r => (r =? Fin 0)%F = true) (daily_returns flat_values)
  /\ calculate_metrics approx_sqrt approx_power flat_values
     = Raise ZeroDivisionError
  /\ dipping_values <> []
  /\ moving_days (daily_returns dipping_values) <> 0%nat
  /\ exists m : metrics,
       calculate_metrics approx_sqrt approx_power dipping_values = Ok m
       /\ win_rate_pct m = Fin (200 # 3).
Proof.
  assert (N : flat_values <> []) by discriminate.
  assert (F : Forall (fun r => (r =? Fin 0)%F = true)
                     (daily_returns flat_values))
    by (repeat constructor).
  assert (N' : dipping_values <> []) by discriminate.
  assert (M : moving_days (daily_returns dipping_values) <> 0%nat)
    by (vm_compute; discriminate).
  split; [exact N | split; [exact F | split]].
  - exact (proj1 (win_rate_of_daily_returns approx_sqrt approx_power
                    flat_values N) F).
  - split; [exact N' | split; [exact M|]].
    destruct (proj2 (win_rate_of_daily_returns approx_sqrt approx_power
                       dipping_values N') M) as [m [E W]].
    exists m. split; [exact E|]. rewrite W. vm_compute. reflexivity.
Defined.

End DailyReturns.

(** ** Volatility and Sharpe ratio of a flat series *)

Section FlatSeries.
Import PerformanceAnalyzer.

Lemma all_zero_repeat (l : list fval) :
  Forall (fun r => r = Fin 0) l -> l = repeat (Fin 0) (length l).
Proof.
  induction 1 as [|r l E _ IH]; simpl; [reflexivity|]. now rewrite E, <- IH.
Qed.

Lemma fsum_zeros (n : nat) : fsum (repeat (Fin 0) n) = Fin 0.
Proof.
  unfold fsum. induction n as [|n IH]; simpl; [reflexivity|].
  change (Fin 0 + Fin 0)%F with (Fin 0). exact IH.
Qed.

Lemma dropna_zeros (n : nat) : dropna (repeat (Fin 0) n) = repeat (Fin 0) n.
Proof.
  induction n as [|n IH]; simpl; [reflexivity|]. now rewrite IH.
Qed.

Lemma fdiv_zero_nat (n : nat) : n <> 0%nat -> (Fin 0 / of_nat n)%F = Fin 0.
Proof.
  intro N. unfold fdiv, of_nat, of_Z.
  assert (E : Qeq_bool (inject_Z (Z.of_nat n)) 0 = false).
  { apply Qeq_bool_false. unfold Qeq; simpl. lia. }
  rewrite E. change (Fin 0) with (fin 0). apply fin_eq.
  unfold Qdiv. apply Qmult_0_l.
Qed.

Lemma variance_zeros (n : nat) :
  (2 <= n)%nat -> variance (repeat (Fin 0) n) = Fin 0.
Proof.
  intro L. unfold variance.
  rewrite dropna_zeros, repeat_length.
  destruct (Nat.leb_spec n 1); [lia|].
  rewrite fsum_zeros, fdiv_zero_nat by lia.
  rewrite map_repeat.
  change ((Fin 0 - Fin 0) * (Fin 0 - Fin 0))%F with (Fin 0).
  rewrite fsum_zeros. apply fdiv_zero_nat. lia.
Qed.

Lemma fmul_zero_finite (a : fval) :
  is_finite a = true -> (Fin 0 * a)%F = Fin 0.
Proof.
  destruct a as [q| | |]; try discriminate. intros _. simpl.
  change (Fin 0) with (fin 0). apply fin_eq. apply Qmult_0_l.
Qed.

Lemma constant_returns_zero (vs : list Q) :
  vs <> [] ->
  (forall a b, In a (daily_returns vs) -> In b (daily_returns vs) -> a = b) ->
  Forall (fun r => r = Fin 0) (daily_returns vs).
Proof.
  intros N C. destruct vs as [|v0 rest]; [contradiction|].
  apply Forall_forall. intros r I. apply (C r (Fin 0) I).
  rewrite daily_returns_cons. now left.
Qed.

Section Numeric.
Variable np_sqrt : fval -> fval.
Variable np_power : fval -> fval -> fval.

(** The guard of the Sharpe ratio: with at least two values and all returns
    zero the volatility is exactly 0 and the ratio is the constant 0. *)
Lemma sharpe_ratio_flat (dr : list fval) (annual : fval) :
  np_sqrt (Fin 0) = Fin 0 ->
  is_finite (np_sqrt (Fin 252)) = true ->
  (2 <= length dr)%nat ->
  Forall (fun r => r = Fin 0) dr ->
  calc_volatility np_sqrt dr = Fin 0
  /\ calc_sharpe_ratio annual (calc_volatility np_sqrt dr) = Fin 0.
Proof.
  intros S0 S252 L Z.
  assert (V : calc_volatility np_sqrt dr = Fin 0).
  { unfold calc_volatility, std.
    rewrite (all_zero_repeat dr Z), variance_zeros, S0 by exact L.
    rewrite (fmul_zero_finite _ S252). reflexivity. }
  split; [exact V|]. rewrite V. reflexivity.
Qed.

(** C3, as the code has it: on a series whose daily returns are all equal
    the returns are all zero, [calculate_metrics] raises ZeroDivisionError
    at the win rate and so reports no Sharpe ratio at all; the Sharpe
    expression itself, for a series of at least two values, is exactly 0. *)
Theorem constant_returns_raise (vs : list Q) :
  vs <> [] ->
  (forall a b, In a (daily_returns vs) -> In b (daily_returns vs) -> a = b) ->
  Forall (fun r => r = Fin 0) (daily_returns vs)
  /\ calculate_metrics np_sqrt np_power vs = Raise ZeroDivisionError
  /\ (np_sqrt (Fin 0) = Fin 0 ->
      is_finite (np_sqrt (Fin 252)) = true ->
      (2 <= length vs)%nat ->
      forall annual : fval,
        calc_sharpe_ratio annual (calc_volatility np_sqrt (daily_returns vs))
        = Fin 0).
Proof.
  intros N C. pose proof (constant_returns_zero vs N C) as Z.
  split; [exact Z|]. split.
  - apply (win_rate_all_flat np_sqrt np_power vs N).
    eapply Forall_impl; [|exact Z]. intros r E; rewrite E; reflexivity.
  - intros S0 S252 L annual.
    apply sharpe_ratio_flat; try assumption.
    now rewrite daily_returns_length.
Qed.

End Numeric.

Lemma constant_returns_raise_witness :
  flat_values <> []
  /\ (forall a b, In a (daily_returns flat_values) ->
                  In b (daily_returns flat_values) -> a = b)
  /\ calculate_metrics approx_sqrt approx_power flat_values
     = Raise ZeroDivisionError
  /\ calc_sharpe_ratio (Fin 1)
       (calc_volatility approx_sqrt (daily_returns flat_values)) = Fin 0.
Proof.
  assert (N : flat_values <> []) by discriminate.
  assert (C : forall a b, In a (daily_returns flat_values) ->
                          In b (daily_returns flat_values) -> a = b).
  { intros a b [A|[A|[A|[]]]] [E|[E|[E|[]]]]; now rewrite <- A, <- E. }
  destruct (constant_returns_raise approx_sqrt approx_power flat_values N C)
    as [_ [R S]].
  split; [exact N | split; [exact C | split; [exact R|]]].
  apply S; [reflexivity | reflexivity | cbv; lia].
Defined.

End FlatSeries.

(** ** The first return in the volatility *)

Section Volatility.
Import PerformanceAnalyzer Reference.

Lemma qsum_ext (f g : Q -> Q) (l : list Q) :
  (forall x, f x == g x) -> qsum (map f l) == qsum (map g l).
Proof.
  intro E. induction l as [|x l IH]; simpl; [reflexivity|].
  now rewrite E, IH.
Qed.

Lemma fsum_from_finite (xs : list Q) :
  forall acc : Q,
  exists s : Q, fold_left fadd (map Fin xs) (Fin acc) = Fin s
                /\ s == acc + qsum xs.
Proof.
  induction xs as [|x xs IH]; intro acc; simpl.
  - exists acc. split; [reflexivity | ring].
  - unfold fin. destruct (IH (Qred (acc + x))) as [s [E S]].
    exists s. split; [exact E|]. rewrite S, Qred_correct. ring.
Qed.

Lemma fsum_finite (xs : list Q) :
  exists s : Q, fsum (map Fin xs) = Fin s /\ s == qsum xs.
Proof.
  destruct (fsum_from_finite xs 0) as [s [E S]].
  exists s. split; [exact E|]. rewrite S. ring.
Qed.

Lemma dropna_finite (xs : list Q) : dropna (map Fin xs) = map Fin xs.
Proof.
  induction xs as [|x xs IH]; simpl; [reflexivity|]. now rewrite IH.
Qed.

Lemma fdiv_by_count (s : Q) (n : nat) :
  n <> 0%nat -> (Fin s / of_nat n)%F = fin (s / inject_Z (Z.of_nat n)).
Proof.
  intro N. unfold fdiv, of_nat, of_Z.
  assert (E : Qeq_bool (inject_Z (Z.of_nat n)) 0 = false).
  { apply Qeq_bool_false. unfold Qeq; simpl. lia. }
  now rewrite E.
Qed.

(** The deviation the code computes on finite samples is the sample
    variance of these samples. *)
Lemma variance_finite (xs : list Q) :
  (2 <= length xs)%nat ->
  exists v : Q, variance (map Fin xs) = Fin v /\ v == sample_variance xs.
Proof.
  intro L. unfold variance.
  rewrite dropna_finite, length_map.
  destruct (Nat.leb_spec (length xs) 1); [lia|].
  destruct (fsum_finite xs) as [s [Es S]]. rewrite Es.
  rewrite fdiv_by_count by lia.
  change (fin (s / inject_Z (Z.of_nat (length xs))))
    with (Fin (Qred (s / inject_Z (Z.of_nat (length xs))))).
  set (m := Qred (s / inject_Z (Z.of_nat (length xs)))).
  assert (Em : m == qmean xs).
  { unfold m, qmean. now rewrite Qred_correct, S. }
  set (g := fun x : Q => Qred (Qred (x + Qred (- m)) * Qred (x + Qred (- m)))).
  assert (Eg : map (fun x => ((x - Fin m) * (x - Fin m))%F) (map Fin xs)
               = map Fin (map g xs)).
  { rewrite !map_map. apply map_ext. intro x. reflexivity. }
  rewrite Eg.
  destruct (fsum_finite (map g xs)) as [s2 [Es2 S2]]. rewrite Es2.
  rewrite fdiv_by_count by lia.
  eexists. split; [reflexivity|].
  rewrite Qred_correct, S2. unfold sample_variance.
  apply Qmult_comp; [|reflexivity].
  apply qsum_ext. intro x. unfold g.
  rewrite !Qred_correct, Em. ring.
Qed.

(** Returns between non-zero values are finite. *)
Lemma pct_from_finite (rest : list Q) :
  forall v0 : Q,
  ~ v0 == 0 -> Forall (fun v => ~ v == 0) rest ->
  exists rs : list Q,
    pct_from (Fin v0) (map Fin rest) = map Fin rs
    /\ length rs = length rest.
Proof.
  induction rest as [|x rest IH]; intros v0 N F; simpl.
  - exists []. split; reflexivity.
  - inversion F as [|? ? Nx F']; subst.
    destruct (IH x Nx F') as [rs [E L]].
    assert (Z : Qeq_bool v0 0 = false) by now apply Qeq_bool_false.
    eexists (_ :: rs). split; [|simpl; now rewrite L].
    rewrite E. unfold fdiv. rewrite Z. reflexivity.
Qed.

Lemma fillna_finite (xs : list Q) :
  fillna (Fin 0) (map Fin xs) = map Fin xs.
Proof.
  unfold fillna. rewrite map_map. apply map_ext. reflexivity.
Qed.

Variable np_sqrt : fval -> fval.
Variable np_power : fval -> fval -> fval.

(** C10: the first daily return of a non-empty series is exactly 0.  It is
    kept in the series (which has one return per value) and it is one of the
    samples of the deviation: the volatility, also the one reported in the
    metrics, is the root of the deviation of the series headed by this 0.
    For a single value the deviation is missing; for a single return it is
    there only because the 0 is counted; for finite returns (any series
    without a zero value) it is, in exact arithmetic, their sample variance
    with the 0 as one of the samples.  The first return is neither a winning
    nor a moving day, so the win-rate counts are those of the remaining
    days. *)
Theorem first_daily_return_is_zero (vs : list Q) :
  vs <> [] ->
  exists rest : list fval,
    daily_returns vs = Fin 0 :: rest
    /\ length (daily_returns vs) = length vs
    /\ dropna (daily_returns vs) = Fin 0 :: rest
    /\ moving_days (daily_returns vs) = moving_days rest
    /\ winning_days (daily_returns vs) = winning_days rest
    /\ (moving_days (daily_returns vs) <= length vs - 1)%nat
    /\ calc_volatility np_sqrt (daily_returns vs)
       = (np_sqrt (variance (Fin 0 :: rest)) * np_sqrt (Fin 252) * Fin 100)%F
    /\ (forall m : metrics,
          calculate_metrics np_sqrt np_power vs = Ok m ->
          volatility m
          = (np_sqrt (variance (Fin 0 :: rest)) * np_sqrt (Fin 252)
             * Fin 100)%F)
    /\ (rest = [] -> variance (daily_returns vs) = NaN)
    /\ (forall rs : list Q,
          rest = map Fin rs -> rs <> [] ->
          exists v : Q,
            variance (daily_returns vs) = Fin v
            /\ v == sample_variance (0 :: rs)
            /\ calc_volatility np_sqrt (daily_returns vs)
               = (np_sqrt (Fin v) * np_sqrt (Fin 252) * Fin 100)%F)
    /\ (Forall (fun v => ~ v == 0) vs ->
        exists rs : list Q,
          rest = map Fin rs /\ length rs = (length vs - 1)%nat)
    /\ (forall r : Q,
          rest = [Fin r] ->
          variance rest = NaN
          /\ is_nan (variance (daily_returns vs)) = false).
Proof.
  intro N. destruct vs as [|v0 vs]; [contradiction|].
  exists (fillna (Fin 0) (pct_from (Fin v0) (map Fin vs))).
  split; [reflexivity|]. split; [apply daily_returns_length|].
  split; [unfold daily_returns; now rewrite fillna_valid|].
  rewrite daily_returns_cons.
  split; [reflexivity|]. split; [reflexivity|].
  split.
  { unfold moving_days, count. simpl.
    etransitivity; [apply filter_length_le|].
    unfold fillna. rewrite length_map, pct_from_length, length_map. lia. }
  split; [reflexivity|].
  split.
  { intros m E. rewrite calculate_metrics_unfold in E.
    rewrite daily_returns_cons in E.
    destruct (calc_win_rate _) as [w|x]; simpl in E; [|discriminate].
    injection E as <-. reflexivity. }
  split; [intros ->; reflexivity|].
  split.
  - intros rs -> R.
    destruct (variance_finite (0 :: rs)) as [v [V S]].
    { destruct rs; [contradiction | simpl; lia]. }
    exists v. split; [exact V|]. split; [exact S|].
    unfold calc_volatility, std.
    change (Fin 0 :: map Fin rs) with (map Fin (0 :: rs)).
    now rewrite V.
  - split.
    + intro F. inversion F as [|? ? N0 F']; subst.
      destruct (pct_from_finite vs v0 N0 F') as [rs [E L]].
      exists rs. rewrite E, fillna_finite. split; [reflexivity|].
      simpl. lia.
    + intros r ->. split; [reflexivity|].
      destruct (variance_finite [0; r]) as [v [V _]]; [simpl; lia|].
      change [Fin 0; Fin r] with (map Fin [0; r]). now rewrite V.
Qed.

End Volatility.

Section VolatilitySample.
Import PerformanceAnalyzer.

Lemma first_daily_return_is_zero_witness :
  dipping_values <> []
  /\ exists rest : list fval,
       daily_returns dipping_values = Fin 0 :: rest
       /\ length (daily_returns dipping_values) = length dipping_values
       /\ dropna (daily_returns dipping_values) = Fin 0 :: rest
       /\ moving_days (daily_returns dipping_values) = moving_days rest
       /\ winning_days (daily_returns dipping_values) = winning_days rest
       /\ (moving_days (daily_returns dipping_values)
           <= length dipping_values - 1)%nat
       /\ rest = map Fin [1 # 5; - (1 # 4); 4 # 9]
       /\ exists v : Q,
            variance (daily_returns dipping_values) = Fin v
            /\ v == Reference.sample_variance [0; 1 # 5; - (1 # 4); 4 # 9]
            /\ v == 11281 # 129600
            /\ ~ v == Reference.sample_variance [1 # 5; - (1 # 4); 4 # 9]
            /\ calc_volatility approx_sqrt (daily_returns dipping_values)
               = (approx_sqrt (Fin v) * approx_sqrt (Fin 252) * Fin 100)%F.
Proof.
  assert (N : dipping_values <> []) by discriminate.
  split; [exact N|].
  destruct (first_daily_return_is_zero approx_sqrt approx_power
              dipping_values N)
    as [rest [D [L [K [M [W [B [_ [_ [_ [V _]]]]]]]]]]].
  exists rest.
  assert (R : rest = map Fin [1 # 5; - (1 # 4); 4 # 9]).
  { vm_compute in D. injection D as <-. reflexivity. }
  split; [exact D|]. split; [exact L|]. split; [exact K|].
  split; [exact M|]. split; [exact W|]. split; [exact B|].
  split; [exact R|].
  destruct (V [1 # 5; - (1 # 4); 4 # 9] R ltac:(discriminate))
    as [v [Ev [Sv Cv]]].
  exists v. split; [exact Ev|]. split; [exact Sv|].
  split; [rewrite Sv; vm_compute; reflexivity|].
  split; [rewrite Sv; vm_compute; discriminate | exact Cv].
Defined.

End VolatilitySample.

(** ** Maximum drawdown *)

Section Drawdown.
Import PerformanceAnalyzer Reference.

Lemma fdiv_fin (p q : Q) : ~ q == 0 -> (Fin p / Fin q)%F = fin (p / q).
Proof.
  intro N. simpl. now rewrite (proj2 (Qeq_bool_false q 0) N).
Qed.

Lemma Qred_nonzero (q : Q) : ~ q == 0 -> ~ Qred q == 0.
Proof. intros N E. apply N. now rewrite <- (Qred_correct q). Qed.

Lemma ratio_nonzero (p q : Q) : 0 < p -> 0 < q -> ~ p / q == 0.
Proof.
  intros P Q0 E.
  assert (0 < p / q) by (apply Qlt_shift_div_l; lra).
  lra.
Qed.

Variable v0 : Q.
Hypothesis v0_pos : 0 < v0.

Lemma cumprod_step (u a : Q) :
  0 < u ->
  (fin (u / v0) * (Fin 1 + (Fin a / Fin u - Fin 1)))%F = fin (a / v0).
Proof.
  intro U. rewrite fdiv_fin by lra.
  unfold fin, fsub, fneg, fadd, fmul, fin. f_equal. apply Qred_complete.
  rewrite !Qred_correct. field. split; lra.
Qed.

Lemma cumprod_of_returns (rest : list Q) :
  forall u : Q, 0 < u -> Forall (Qlt 0) rest ->
  cumprod_from (fin (u / v0))
    (map (fadd (Fin 1)) (fillna (Fin 0) (pct_from (Fin u) (map Fin rest))))
  = map (fun v => fin (v / v0)) rest.
Proof.
  induction rest as [|a rest IH]; intros u U F; [reflexivity|].
  inversion F as [|? ? A F']; subst.
  cbn [map pct_from fillna cumprod_from].
  assert (E : exists q, (Fin a / Fin u - Fin 1)%F = Fin q).
  { rewrite fdiv_fin by lra. eexists. reflexivity. }
  destruct E as [q E].
  assert (E1 : is_nan (Fin a / Fin u - Fin 1)%F = false) by now rewrite E.
  rewrite E1.
  assert (E2 : is_nan (Fin 1 + (Fin a / Fin u - Fin 1))%F = false)
    by now rewrite E.
  rewrite E2, (cumprod_step u a U). f_equal. apply IH; assumption.
Qed.

Lemma cumulative_returns_closed (rest : list Q) :
  Forall (Qlt 0) rest ->
  cumulative_returns (v0 :: rest) = map (fun v => fin (v / v0)) (v0 :: rest).
Proof.
  intro F. unfold cumulative_returns. rewrite daily_returns_cons.
  unfold cumprod. cbn [map cumprod_from].
  change (is_nan (Fin 1 + Fin 0)%F) with false. cbv iota.
  change (Fin 1 * (Fin 1 + Fin 0))%F with (fin 1).
  assert (E : fin 1 = fin (v0 / v0)) by (apply fin_eq; field; lra).
  rewrite E. f_equal. apply cumprod_of_returns; assumption.
Qed.

Lemma Qltb_red (p q : Q) : Qltb (Qred p) (Qred q) = Qltb p q.
Proof.
  destruct (Qltb p q) eqn:E.
  - apply Qltb_lt in E. apply Qltb_lt. now rewrite !Qred_correct.
  - apply Qltb_ge in E. apply Qltb_ge. now rewrite !Qred_correct.
Qed.

Lemma Qltb_scale (p q : Q) : Qltb (p / v0) (q / v0) = Qltb p q.
Proof.
  assert (I : 0 < / v0) by now apply Qinv_lt_0_compat.
  destruct (Qltb p q) eqn:E.
  - apply Qltb_lt in E. apply Qltb_lt. unfold Qdiv.
    now apply Qmult_lt_compat_r.
  - apply Qltb_ge in E. apply Qltb_ge. unfold Qdiv.
    apply Qmult_le_compat_r; [assumption | now apply Qlt_le_weak].
Qed.

Lemma expanding_max_closed (rest : list Q) :
  forall pk : Q,
  expanding_max_from (Some (fin (pk / v0))) (map (fun v => fin (v / v0)) rest)
  = map (fun q => fin (q / v0)) (peaks_from pk rest).
Proof.
  induction rest as [|a rest IH]; intro pk; [reflexivity|].
  cbn [map expanding_max_from peaks_from].
  assert (E : observe fmax (Some (fin (pk / v0))) (fin (a / v0))
              = Some (fin ((if Qltb pk a then a else pk) / v0))).
  { unfold observe, fmax, fin; cbn [is_nan fltb].
    rewrite Qltb_red, Qltb_scale. now destruct (Qltb pk a). }
  rewrite E. cbn [seen]. f_equal. apply IH.
Qed.

Lemma rolling_max_closed (rest : list Q) :
  Forall (Qlt 0) rest ->
  rolling_max (v0 :: rest) = map (fun q => fin (q / v0)) (peaks (v0 :: rest)).
Proof.
  intro F. unfold rolling_max. rewrite (cumulative_returns_closed rest F).
  unfold expanding_max. cbn [map expanding_max_from peaks].
  change (observe fmax None (fin (v0 / v0))) with (Some (fin (v0 / v0))).
  cbn [seen]. f_equal. apply expanding_max_closed.
Qed.

Lemma drawdown_elem (v pk : Q) :
  0 < pk ->
  ((fin (v / v0) - fin (pk / v0)) / fin (pk / v0) * Fin 100)%F
  = fin (drawdown_pct v pk).
Proof.
  intro P.
  assert (N : ~ Qred (pk / v0) == 0)
    by (apply Qred_nonzero, ratio_nonzero; assumption).
  unfold fin at 1 2 3. unfold fsub, fneg, fadd, fin.
  rewrite (fdiv_fin _ _ N). unfold fmul, fin. f_equal. apply Qred_complete.
  rewrite !Qred_correct. unfold drawdown_pct. field. split; lra.
Qed.

Lemma zip_with_maps {A C : Type} (f : fval -> fval -> fval)
    (g : A -> fval) (h : C -> fval) (l1 : list A) :
  forall l2 : list C,
  zip_with f (map g l1) (map h l2)
  = map (fun ab => f (g (fst ab)) (h (snd ab))) (combine l1 l2).
Proof.
  induction l1 as [|a l1 IH]; intros [|c l2]; simpl; try reflexivity.
  now rewrite IH.
Qed.

Lemma peaks_from_pos (rest : list Q) :
  forall pk : Q, 0 < pk -> Forall (Qlt 0) rest ->
  Forall (Qlt 0) (peaks_from pk rest).
Proof.
  induction rest as [|a rest IH]; intros pk P F; simpl; [constructor|].
  inversion F; subst. destruct (Qltb pk a); constructor; auto.
Qed.

Lemma drawdowns_closed (rest : list Q) :
  Forall (Qlt 0) rest ->
  drawdowns (v0 :: rest)
  = map (fun ab => fin (drawdown_pct (fst ab) (snd ab)))
        (combine (v0 :: rest) (peaks (v0 :: rest))).
Proof.
  intro F. unfold drawdowns.
  rewrite (cumulative_returns_closed rest F), (rolling_max_closed rest F).
  rewrite zip_with_maps. apply map_ext_in. intros [v pk] I.
  apply drawdown_elem. apply in_combine_r in I.
  assert (P : Forall (Qlt 0) (peaks (v0 :: rest))).
  { simpl. constructor; [assumption|]. now apply peaks_from_pos. }
  rewrite Forall_forall in P. now apply P.
Qed.

End Drawdown.

Section DrawdownBounds.
Import PerformanceAnalyzer Reference.

Lemma series_min_from (qs : list Q) :
  forall m : Q,
  fold_left (observe fmin) (map fin qs) (Some (fin m))
  = Some (fin (qmin_from m qs)).
Proof.
  induction qs as [|x qs IH]; intro m; [reflexivity|].
  cbn [map fold_left qmin_from].
  assert (E : observe fmin (Some (fin m)) (fin x)
              = Some (fin (if Qltb x m then x else m))).
  { unfold observe, fmin, fin; cbn [is_nan fltb].
    rewrite Qltb_red. now destruct (Qltb x m). }
  rewrite E. apply IH.
Qed.

Lemma qmin_from_le (l : list Q) :
  forall m : Q,
  qmin_from m l <= m /\ Forall (fun x => qmin_from m l <= x) l.
Proof.
  induction l as [|x l IH]; intro m; simpl.
  - split; [apply Qle_refl | constructor].
  - destruct (IH (if Qltb x m then x else m)) as [L F].
    destruct (Qltb x m) eqn:E.
    + apply Qltb_lt in E. split; [lra|]. constructor; assumption.
    + apply Qltb_ge in E. split; [assumption|]. constructor; [lra | assumption].
Qed.

Lemma qmin_from_in (l : list Q) :
  forall m : Q, qmin_from m l = m \/ In (qmin_from m l) l.
Proof.
  induction l as [|x l IH]; intro m; simpl; [now left|].
  destruct (IH (if Qltb x m then x else m)) as [E|I].
  - rewrite E. destruct (Qltb x m); [right; now left | now left].
  - right; now right.
Qed.

Lemma drawdown_pct_bounds (v pk : Q) :
  0 < v -> v <= pk ->
  -(100) < drawdown_pct v pk /\ drawdown_pct v pk <= 0.
Proof.
  intros V L.
  assert (P : 0 < pk) by lra.
  assert (E : drawdown_pct v pk == (v / pk - 1) * 100)
    by (unfold drawdown_pct; field; lra).
  assert (0 < v / pk) by (apply Qlt_shift_div_l; lra).
  assert (v / pk <= 1) by (apply Qle_shift_div_r; lra).
  rewrite E. split; lra.
Qed.

Lemma drawdown_pct_zero (v pk : Q) :
  0 < pk -> (drawdown_pct v pk == 0 <-> v == pk).
Proof.
  intro P. split; intro E.
  - assert (F : v == (drawdown_pct v pk / 100 + 1) * pk)
      by (unfold drawdown_pct; field; lra).
    rewrite F, E. field.
  - unfold drawdown_pct. rewrite E. field. lra.
Qed.

(** Every value is positive and at most the peak recorded with it. *)
Lemma peaks_from_dominate (rest : list Q) :
  forall pk : Q, 0 < pk -> Forall (Qlt 0) rest ->
  Forall (fun ab => 0 < fst ab /\ fst ab <= snd ab)
         (combine rest (peaks_from pk rest)).
Proof.
  induction rest as [|a rest IH]; intros pk P F; simpl; [constructor|].
  inversion F; subst. destruct (Qltb pk a) eqn:E; constructor; simpl; auto.
  - split; [assumption | apply Qle_refl].
  - apply Qltb_ge in E. split; assumption.
Qed.

Lemma Sorted_head_eq (a b : Q) (r : list Q) :
  a == b -> Sorted Qle (a :: r) -> Sorted Qle (b :: r).
Proof.
  intros E S. inversion S as [|? ? S' H]; subst. constructor; [assumption|].
  destruct r as [|y r]; constructor. inversion H; subst. now rewrite <- E.
Qed.

(** A series never falls below its running peak exactly when it is
    non-decreasing. *)
Lemma sorted_iff_peaks (rest : list Q) :
  forall pk : Q,
  Forall (fun ab => snd ab <= fst ab) (combine rest (peaks_from pk rest))
  <-> Sorted Qle (pk :: rest).
Proof.
  induction rest as [|x r IH]; intro pk; simpl.
  - split; intros _; repeat constructor.
  - destruct (Qltb pk x) eqn:E.
    + apply Qltb_lt in E. split; intro H.
      * inversion H; subst. constructor; [now apply IH|].
        constructor. now apply Qlt_le_weak.
      * inversion H as [|? ? S _]; subst. constructor;
          [apply Qle_refl | now apply IH].
    + apply Qltb_ge in E. split; intro H.
      * inversion H as [|? ? L T]; subst. simpl in L.
        assert (Q0 : pk == x) by lra.
        constructor; [|constructor; lra].
        apply (Sorted_head_eq pk x r Q0). now apply IH.
      * inversion H as [|? ? S Hd]; subst. inversion Hd; subst.
        assert (Q0 : x == pk) by lra.
        constructor; [simpl; lra|].
        apply IH. now apply (Sorted_head_eq x pk r Q0).
Qed.

(** C7: on a series of positive values the maximum drawdown is a finite
    percentage between 0 and 100, reported without sign, and it is 0
    exactly when the series is non-decreasing; it is the value the metrics
    carry whenever [calculate_metrics] returns. *)
Theorem max_drawdown_bounds (vs : list Q) :
  vs <> [] ->
  Forall (Qlt 0) vs ->
  exists d : Q,
    calc_max_drawdown vs = Fin d
    /\ 0 <= d /\ d <= 100
    /\ (d == 0 <-> Sorted Qle vs)
    /\ forall (np_sqrt : fval -> fval) (np_power : fval -> fval -> fval)
              (m : metrics),
         calculate_metrics np_sqrt np_power vs = Ok m ->
         max_drawdown m = Fin d.
Proof.
  intros N F. destruct vs as [|v0 rest]; [contradiction|].
  inversion F as [|? ? V0 F']; subst.
  set (pairs := combine rest (peaks_from v0 rest)).
  set (dds := map (fun ab => drawdown_pct (fst ab) (snd ab)) pairs).
  set (m := qmin_from (drawdown_pct v0 v0) dds).
  assert (D : calc_max_drawdown (v0 :: rest) = Fin (Qred (Qabs (Qred m)))).
  { unfold calc_max_drawdown. rewrite (drawdowns_closed v0 V0 rest F').
    cbn [peaks combine map fst snd]. fold pairs.
    unfold series_min. cbn [fold_left].
    change (observe fmin None (fin (drawdown_pct v0 v0)))
      with (Some (fin (drawdown_pct v0 v0))).
    rewrite <- (map_map (fun ab => drawdown_pct (fst ab) (snd ab)) fin).
    fold dds. rewrite series_min_from. reflexivity. }
  assert (Dom : Forall (fun ab => 0 < fst ab /\ fst ab <= snd ab) pairs)
    by (apply peaks_from_dominate; assumption).
  assert (Z0 : drawdown_pct v0 v0 == 0)
    by (apply drawdown_pct_zero; [assumption | reflexivity]).
  assert (B : Forall (fun x => -(100) < x /\ x <= 0) dds).
  { unfold dds. apply Forall_map. eapply Forall_impl; [|exact Dom].
    intros [v pk] [V L]. now apply drawdown_pct_bounds. }
  destruct (qmin_from_le dds (drawdown_pct v0 v0)) as [Mle Mall].
  fold m in Mle, Mall.
  assert (Mb : -(100) < m /\ m <= 0).
  { destruct (qmin_from_in dds (drawdown_pct v0 v0)) as [E|I];
      [fold m in E | fold m in I].
    - rewrite E, Z0. split; lra.
    - rewrite Forall_forall in B. now apply B. }
  exists (Qred (Qabs (Qred m))). split; [exact D|].
  assert (A : Qred (Qabs (Qred m)) == - m).
  { rewrite !Qred_correct. rewrite Qabs_neg by lra. reflexivity. }
  split; [lra|]. split; [lra|]. split.
  - rewrite A. rewrite <- (sorted_iff_peaks rest v0). fold pairs. split.
    + intro E. rewrite Forall_forall in Dom, Mall |- *. intros [v pk] I.
      simpl. destruct (Dom _ I) as [V L]. simpl in V, L.
      assert (Idd : In (drawdown_pct v pk) dds).
      { unfold dds. now apply (in_map (fun ab => drawdown_pct (fst ab) (snd ab))
                                 pairs (v, pk)). }
      pose proof (Mall _ Idd) as M1.
      destruct (drawdown_pct_bounds v pk V L) as [_ M2].
      assert (Zd : drawdown_pct v pk == 0) by lra.
      assert (Veq : v == pk) by (apply (drawdown_pct_zero v pk); lra).
      lra.
    + intro S.
      assert (Zs : Forall (fun x => x == 0) dds).
      { unfold dds. apply Forall_map. rewrite Forall_forall in Dom, S |- *.
        intros [v pk] I. destruct (Dom _ I) as [V L]. pose proof (S _ I) as G.
        simpl in *. apply (drawdown_pct_zero v pk); lra. }
      destruct (qmin_from_in dds (drawdown_pct v0 v0)) as [E|I];
        [fold m in E | fold m in I].
      * rewrite E, Z0. reflexivity.
      * rewrite Forall_forall in Zs. rewrite (Zs _ I). reflexivity.
  - intros np_sqrt np_power mt R.
    rewrite calculate_metrics_unfold in R.
    destruct (calc_win_rate _) as [w|]; [|discriminate].
    simpl in R. injection R as <-. exact D.
Qed.

Lemma max_drawdown_bounds_witness :
  dipping_values <> []
  /\ Forall (Qlt 0) dipping_values
  /\ exists d : Q,
       calc_max_drawdown dipping_values = Fin d
       /\ 0 <= d /\ d <= 100
       /\ (d == 0 <-> Sorted Qle dipping_values)
       /\ exists m : metrics,
            calculate_metrics approx_sqrt approx_power dipping_values = Ok m
            /\ max_drawdown m = Fin d.
Proof.
  assert (N : dipping_values <> []) by discriminate.
  assert (F : Forall (Qlt 0) dipping_values)
    by (repeat constructor).
  split; [exact N | split; [exact F|]].
  destruct (max_drawdown_bounds dipping_values N F)
    as [d [D [L0 [L1 [I K]]]]].
  exists d. split; [exact D|]. split; [exact L0|]. split; [exact L1|].
  split; [exact I|].
  destruct (calculate_metrics approx_sqrt approx_power dipping_values)
    as [m|e] eqn:E.
  - exists m. split; [reflexivity|]. exact (K _ _ _ E).
  - vm_compute in E. discriminate.
Defined.

End DrawdownBounds.

(** ** RSI *)

Section RSI.
Import FactorAnalyzer.

Lemma nth_zip_fdiv (a : list fval) :
  forall (b : list fval) (i : nat),
  nth i (zip_with fdiv a b) NaN = (nth i a NaN / nth i b NaN)%F.
Proof.
  induction a as [|x a IH]; intros b i.
  - destruct i; reflexivity.
  - destruct b as [|y b].
    + simpl zip_with. destruct i; simpl.
      * now destruct x.
      * now destruct (nth i a NaN).
    + destruct i; simpl; [reflexivity | apply IH].
Qed.

Lemma nth_rsi (close : list Q) (i : nat) :
  nth i (rsi close) NaN
  = (Fin 100
     - Fin 100 / (Fin 1 + nth i (gain close) NaN / nth i (loss close) NaN))%F.
Proof.
  unfold rsi, rs.
  change NaN with ((fun r => (Fin 100 - Fin 100 / (Fin 1 + r))%F) NaN) at 1.
  rewrite map_nth, nth_zip_fdiv. reflexivity.
Qed.

Lemma inf_of_positive (g : Q) : 0 < g -> inf_of_sign (Qsgn g) = PInf.
Proof.
  unfold Qlt, Qsgn. simpl. intro P.
  destruct (Qnum g); simpl; try reflexivity; lia.
Qed.

Lemma inf_of_zero (g : Q) : g == 0 -> inf_of_sign (Qsgn g) = NaN.
Proof.
  unfold Qeq, Qsgn. simpl. intro P.
  destruct (Qnum g); simpl; try reflexivity; lia.
Qed.

(** C9, as the code has it: at a bar where the rolling average loss is zero
    the division raises nothing; the RSI is 100 when the rolling average
    gain is positive, and it is undefined (NaN) when the gain is zero as
    well. *)
Theorem rsi_without_losses (close : list Q) (i : nat) (g : Q) :
  (nth i (loss close) NaN =? Fin 0)%F = true ->
  nth i (gain close) NaN = Fin g ->
  (0 < g -> nth i (rsi close) NaN = Fin 100)
  /\ (g == 0 -> nth i (rsi close) NaN = NaN).
Proof.
  intros L G. rewrite nth_rsi, G.
  destruct (nth i (loss close) NaN) as [l| | |]; try discriminate.
  simpl in L. cbn [fdiv]. rewrite L. split; intro P.
  - now rewrite (inf_of_positive g P).
  - now rewrite (inf_of_zero g P).
Qed.

Lemma rsi_without_losses_witness :
  (nth 13 (loss rising_close) NaN =? Fin 0)%F = true
  /\ nth 13 (gain rising_close) NaN = Fin (13 # 14)
  /\ nth 13 (rsi rising_close) NaN = Fin 100
  /\ (nth 13 (loss flat_close) NaN =? Fin 0)%F = true
  /\ nth 13 (gain flat_close) NaN = Fin 0
  /\ nth 13 (rsi flat_close) NaN = NaN.
Proof.
  assert (L : (nth 13 (loss rising_close) NaN =? Fin 0)%F = true)
    by (vm_compute; reflexivity).
  assert (G : nth 13 (gain rising_close) NaN = Fin (13 # 14))
    by (vm_compute; reflexivity).
  assert (L' : (nth 13 (loss flat_close) NaN =? Fin 0)%F = true)
    by (vm_compute; reflexivity).
  assert (G' : nth 13 (gain flat_close) NaN = Fin 0)
    by (vm_compute; reflexivity).
  split; [exact L | split; [exact G | split]].
  - apply (proj1 (rsi_without_losses rising_close 13 (13 # 14) L G)).
    reflexivity.
  - split; [exact L' | split; [exact G'|]].
    apply (proj2 (rsi_without_losses flat_close 13 0 L' G')). reflexivity.
Defined.

(** C9 as the specification words it fails on a rising series: at the
    first bar with a full window the rolling average loss is zero and the
    RSI is the number 100, not an undefined value. *)
Lemma rsi_rising_counterexample :
  nth 13 (loss rising_close) NaN = Fin 0
  /\ nth 13 (gain rising_close) NaN = Fin (13 # 14)
  /\ nth 13 (rsi rising_close) NaN = Fin 100
  /\ is_nan (nth 13 (rsi rising_close) NaN) = false.
Proof.
  repeat split; vm_compute; reflexivity.
Qed.

End RSI.

(** * Further properties of the code *)

Import MoreSamples.

(** ** The exit rule and the crosses *)

Section ExitRule.

Lemma crosses_exclude (p : params) (v : view) :
  macd_cross_up p v && macd_cross_down p v = false.
Proof.
  destruct (macd_cross_up p v && macd_cross_down p v) eqn:E; [|reflexivity].
  exfalso. unfold macd_cross_up, macd_cross_down, fgtb in E.
  rewrite !andb_true_iff in E. destruct E as [[U1 U2] [D1 D2]].
  destruct (macd_threshold p) as [t| | |]; simpl in *;
    destruct (prev_hist v) as [a| | |]; simpl in *; try discriminate;
    destruct (curr_hist v) as [c| | |]; simpl in *; try discriminate.
  apply Qltb_lt in U1, U2, D1, D2. rewrite Qred_correct in D1, D2. lra.
Qed.

Lemma above_excludes_below (v : view) :
  price_above_trend v = true -> price_below_trend v = false.
Proof.
  unfold price_above_trend, price_below_trend, fgtb.
  destruct (trend_ema v) as [t| | |]; simpl; try discriminate;
    try reflexivity.
  rewrite Qltb_lt, Qltb_ge. apply Qlt_le_weak.
Qed.

(** X1: no bar is both an upward and a downward cross of the histogram,
    whatever the threshold and the histogram values (missing or infinite
    ones included); and on a bar where the entry rule holds neither
    indicator exit (downward cross, close below the trend EMA) holds. *)
Theorem entry_excludes_indicator_exit (p : params) (v : view)
    (lo : option operation) :
  macd_cross_up p v && macd_cross_down p v = false
  /\ (should_buy p v lo = true ->
      macd_cross_down p v = false /\ price_below_trend v = false).
Proof.
  split; [apply crosses_exclude|].
  unfold should_buy. rewrite !andb_true_iff.
  intros [[[[U A] _] _] _]. split.
  - pose proof (crosses_exclude p v) as X. rewrite U in X. exact X.
  - now apply above_excludes_below.
Qed.

Lemma entry_excludes_indicator_exit_witness :
  should_buy default_params cross_view None = true
  /\ macd_cross_down default_params cross_view = false
  /\ price_below_trend cross_view = false.
Proof.
  assert (S : should_buy default_params cross_view None = true)
    by reflexivity.
  split; [exact S|].
  exact (proj2 (entry_excludes_indicator_exit default_params cross_view None)
               S).
Defined.

Lemma fltb_nan_r (x : fval) : (x <? NaN)%F = false.
Proof. now destruct x. Qed.

(** X18: a missing indicator reading never triggers an entry: when the
    current or the previous histogram value, the MACD line, the trend EMA,
    the volume average or the threshold is NaN, [should_buy] is False. *)
Theorem should_buy_needs_all_readings (p : params) (v : view)
    (lo : option operation) :
  curr_hist v = NaN \/ prev_hist v = NaN \/ macd_line v = NaN
  \/ trend_ema v = NaN \/ volume_ma v = NaN \/ macd_threshold p = NaN ->
  should_buy p v lo = false.
Proof.
  unfold should_buy, macd_cross_up, price_above_trend, volume_increase,
    macd_above_zero, fgtb.
  intros [E|[E|[E|[E|[E|E]]]]]; rewrite E; cbn [fmul fltb];
    rewrite ?fltb_nan_r, ?andb_false_r; reflexivity.
Qed.

Lemma should_buy_needs_all_readings_witness :
  trend_ema {| macd_hist := {| cur := Fin 1; past := [Fin (-1)] |};
               macd_line := Fin 2; trend_ema := NaN;
               volume_ma := Fin 1000; close := 100; volume := 5000 |} = NaN
  /\ should_buy default_params
       {| macd_hist := {| cur := Fin 1; past := [Fin (-1)] |};
          macd_line := Fin 2; trend_ema := NaN;
          volume_ma := Fin 1000; close := 100; volume := 5000 |} None
     = false.
Proof.
  split; [reflexivity|].
  apply should_buy_needs_all_readings. right; right; right; left.
  reflexivity.
Defined.

Lemma profit_test (c b t : Q) :
  0 < b ->
  ((Fin c - Fin b) / Fin b >=? Fin t)%F = true <-> b * (1 + t) <= c.
Proof.
  intro P. unfold fsub, fneg, fadd, fin.
  rewrite fdiv_fin by lra. unfold fgeb, fleb, fin; simpl.
  rewrite orb_true_iff, Qltb_lt, Qeq_bool_iff, !Qred_correct.
  assert (E : (c + - b) / b == c / b - 1) by (field; lra).
  rewrite E.
  assert (S : t <= c / b - 1 <-> b * (1 + t) <= c).
  { split; intro L.
    - assert (L' : 1 + t <= c / b) by lra.
      apply (Qmult_le_l _ _ b P) in L'.
      assert (F : b * (c / b) == c) by (field; lra). lra.
    - assert (L' : 1 + t <= c / b)
        by (apply Qle_shift_div_l; [assumption | lra]).
      lra. }
  rewrite <- S. split; [intros [L|L]; lra | intro L].
  destruct (Qlt_le_dec t (c / b - 1)); [now left | right; lra].
Qed.

Lemma loss_test (c b t : Q) :
  0 < b ->
  ((Fin b - Fin c) / Fin b >=? Fin t)%F = true <-> c <= b * (1 - t).
Proof.
  intro P. unfold fsub, fneg, fadd, fin.
  rewrite fdiv_fin by lra. unfold fgeb, fleb, fin; simpl.
  rewrite orb_true_iff, Qltb_lt, Qeq_bool_iff, !Qred_correct.
  assert (E : (b + - c) / b == 1 - c / b) by (field; lra).
  rewrite E.
  assert (S : t <= 1 - c / b <-> c <= b * (1 - t)).
  { split; intro L.
    - assert (L' : c / b <= 1 - t) by lra.
      apply (Qmult_le_l _ _ b P) in L'.
      assert (F : b * (c / b) == c) by (field; lra). lra.
    - assert (L' : c / b <= 1 - t)
        by (apply Qle_shift_div_r; [assumption | lra]).
      lra. }
  rewrite <- S. split; [intros [L|L]; lra | intro L].
  destruct (Qlt_le_dec t (1 - c / b)); [now left | right; lra].
Qed.

(** X2: the early returns of [should_sell], flattened.  It fires exactly
    when a position is open and either a buy price is on record (neither
    None nor 0.0) and the profit ratio or the loss ratio, as the code
    computes them, reaches its limit, or the histogram crosses down or the
    close is below the trend EMA while the last operation is not a sell.
    So the two price exits ignore the indicators and [last_operation].
    With a positive buy price and positive limits, a take profit is taken
    only above the buy price and a stop loss only below it. *)
Theorem should_sell_fires_exactly (p : params) (v : view) (pos : Z)
    (bp : option fval) (lo : option operation) :
  (should_sell p v pos bp lo = true <->
   pos <> 0%Z
   /\ ((exists b : fval,
          truthy_price bp = Some b
          /\ (((Fin (close v) - b) / b >=? exit_profit_pct p)%F = true
              \/ ((b - Fin (close v)) / b >=? exit_loss_pct p)%F = true))
       \/ ((macd_cross_down p v = true \/ price_below_trend v = true)
           /\ lo <> Some sell_op)))
  /\ (forall b tp sl : Q,
        0 < b -> 0 < tp -> 0 < sl ->
        exit_profit_pct p = Fin tp ->
        exit_loss_pct p = Fin sl ->
        (((Fin (close v) - Fin b) / Fin b >=? exit_profit_pct p)%F = true ->
         b < close v)
        /\ (((Fin b - Fin (close v)) / Fin b >=? exit_loss_pct p)%F = true ->
            close v < b)).
Proof.
  split.
  - unfold should_sell.
    destruct (Z.eqb_spec pos 0) as [->|N].
    { split; [discriminate | intros [N _]; now contradiction N]. }
    destruct (truthy_price bp) as [b|].
    + destruct ((Fin (close v) - b) / b >=? exit_profit_pct p)%F eqn:T1.
      { split; [|reflexivity]. intros _. split; [exact N|].
        left. exists b. split; [reflexivity | now left]. }
      destruct ((b - Fin (close v)) / b >=? exit_loss_pct p)%F eqn:T2.
      { split; [|reflexivity]. intros _. split; [exact N|].
        left. exists b. split; [reflexivity | now right]. }
      rewrite andb_true_iff, orb_true_iff, negb_true_iff,
        last_operation_is_false.
      split; [intro H; split; [exact N | right; exact H]|].
      intros [_ [[b' [E [H|H]]]|H]]; [| |exact H];
        injection E as <-; congruence.
    + rewrite andb_true_iff, orb_true_iff, negb_true_iff,
        last_operation_is_false.
      split; [intro H; split; [exact N | right; exact H]|].
      intros [_ [[b' [E _]]|H]]; [discriminate | exact H].
  - intros b tp sl P TP SL -> ->. split; intro T.
    + apply (profit_test (close v) b tp P) in T.
      assert (0 < b * tp) by (apply Qmult_lt_0_compat; assumption). lra.
    + apply (loss_test (close v) b sl P) in T.
      assert (0 < b * sl) by (apply Qmult_lt_0_compat; assumption). lra.
Qed.

Lemma should_sell_fires_exactly_witness :
  should_sell default_params (quiet_view (11501 # 100)) 950
    (Some (Fin 100)) (Some sell_op) = true
  /\ should_sell default_params (quiet_view 110) 950
       (Some (Fin 100)) (Some buy_op) = false
  /\ should_sell default_params (quiet_view (11501 # 100)) 0
       (Some (Fin 100)) (Some sell_op) = false
  /\ 100 < close (quiet_view (11501 # 100)).
Proof.
  split; [|split; [|split]].
  - apply (proj1 (should_sell_fires_exactly default_params
                    (quiet_view (11501 # 100)) 950 (Some (Fin 100))
                    (Some sell_op))).
    split; [discriminate|]. left. exists (Fin 100).
    split; [reflexivity | left; reflexivity].
  - destruct (should_sell default_params (quiet_view 110) 950
                (Some (Fin 100)) (Some buy_op)) eqn:E; [|reflexivity].
    apply (proj1 (should_sell_fires_exactly default_params (quiet_view 110)
                    950 (Some (Fin 100)) (Some buy_op))) in E.
    exfalso. destruct E as [_ [[b [B [E|E]]]|[[E|E] _]]];
      try (injection B as <-); vm_compute in E; discriminate.
  - destruct (should_sell default_params (quiet_view (11501 # 100)) 0
                (Some (Fin 100)) (Some sell_op)) eqn:E; [|reflexivity].
    apply (proj1 (should_sell_fires_exactly default_params
                    (quiet_view (11501 # 100)) 0 (Some (Fin 100))
                    (Some sell_op))) in E.
    exfalso. now apply (proj1 E).
  - apply (proj2 (should_sell_fires_exactly default_params
                    (quiet_view (11501 # 100)) 950 (Some (Fin 100))
                    (Some sell_op)) 100 (15 # 100) (7 # 100));
      reflexivity.
Defined.

End ExitRule.

(** ** Orders placed by [next] *)

Section Orders.
Context {B : Type} {HB : Broker B}.

(** X3: whenever [next] returns, it has either changed nothing, or (no
    order pending, no position, entry rule true) handed one size to
    [self.buy] and recorded 'buy', or (no order pending, a position, exit
    rule true) handed the whole position to [self.sell] and recorded
    'sell'.  It never buys while holding, never sells while flat, never
    acts while an order is pending and never touches the buy price. *)
Theorem next_places_one_order (p : params) (v : view) (st st' : strategy)
    (b b' : B) :
  next p v st b = Ok (st', b') ->
  buy_price st' = buy_price st
  /\ ((st' = st /\ b' = b)
      \/ (order st = None /\ position_size b = 0%Z
          /\ should_buy p v (last_operation st) = true
          /\ last_operation st' = Some buy_op
          /\ exists n : Z, buy b n = (b', order st'))
      \/ (order st = None /\ position_size b <> 0%Z
          /\ should_sell p v (position_size b) (buy_price st)
               (last_operation st) = true
          /\ last_operation st' = Some sell_op
          /\ sell b (position_size b) = (b', order st'))).
Proof.
  unfold next. destruct (order st) as [o|] eqn:O.
  - intro E. injection E as <- <-. split; [reflexivity | now left].
  - destruct (Z.eqb_spec (position_size b) 0) as [P|P].
    + destruct (should_buy p v (last_operation st)) eqn:S.
      * unfold py_div. destruct (Qeq_bool (close v) 0); [discriminate|].
        simpl. destruct (buy b _) as [b1 o1] eqn:Bu.
        intro E. injection E as <- <-. simpl. split; [reflexivity|].
        right; left. repeat split; try assumption. eexists. exact Bu.
      * intro E. injection E as <- <-. split; [reflexivity | now left].
    + destruct (should_sell p v _ _ _) eqn:S.
      * destruct (sell b _) as [b1 o1] eqn:Se.
        intro E. injection E as <- <-. simpl. split; [reflexivity|].
        right; right. repeat split; assumption.
      * intro E. injection E as <- <-. split; [reflexivity | now left].
Qed.

(** X4: a strategy that is flat, has no order pending and whose last
    operation is 'buy' places no order again, whatever the bars bring:
    [next] leaves strategy and broker as they are, bar after bar. *)
Theorem flat_after_buy_is_stuck (p : params) (views : list view)
    (st : strategy) (b : B) :
  order st = None ->
  position_size b = 0%Z ->
  last_operation st = Some buy_op ->
  fold_left (fun r v => sb <- r ;; next p v (fst sb) (snd sb)) views
            (Ok (st, b))
  = Ok (st, b).
Proof.
  intros O P L. induction views as [|v views IH]; [reflexivity|].
  simpl. unfold next at 2. rewrite O, P. simpl.
  unfold should_buy. rewrite L. simpl. rewrite andb_false_r. exact IH.
Qed.

End Orders.

Lemma next_places_one_order_witness :
  exists st' : strategy,
    next default_params (quiet_view (11501 # 100)) bought_at_100
         holding_broker
    = Ok (st', fst (sell holding_broker 950))
    /\ buy_price st' = buy_price bought_at_100
    /\ last_operation st' = Some sell_op
    /\ order st' = Some {| side := sell_op; size := 950 |}.
Proof.
  assert (E : next default_params (quiet_view (11501 # 100)) bought_at_100
                   holding_broker
              = Ok ({| buy_price := Some (Fin 100);
                       order := Some {| side := sell_op; size := 950 |};
                       last_operation := Some sell_op |},
                    fst (sell holding_broker 950)))
    by (vm_compute; reflexivity).
  eexists. split; [exact E|].
  destruct (next_places_one_order _ _ _ _ _ _ E) as [P _].
  split; [exact P | split; reflexivity].
Defined.

Lemma flat_after_buy_is_stuck_witness :
  order {| buy_price := None; order := None; last_operation := Some buy_op |}
  = None
  /\ position_size poor_broker = 0%Z
  /\ fold_left (fun r v => sb <- r ;; next default_params v (fst sb) (snd sb))
       [cross_view; plateau_view; cross_view]
       (Ok ({| buy_price := None; order := None;
               last_operation := Some buy_op |}, poor_broker))
     = Ok ({| buy_price := None; order := None;
              last_operation := Some buy_op |}, poor_broker).
Proof.
  split; [reflexivity | split; [reflexivity|]].
  apply (flat_after_buy_is_stuck default_params
           [cross_view; plateau_view; cross_view]
           {| buy_price := None; order := None;
              last_operation := Some buy_op |} poor_broker);
    reflexivity.
Defined.

(** ** The size of a buy order *)

Section Sizing.

Lemma py_int_floor (x : Q) :
  0 <= x -> inject_Z (py_int x) <= x /\ x < inject_Z (py_int x) + 1.
Proof.
  intro P. unfold py_int.
  assert (N : (0 <= Qnum x)%Z).
  { unfold Qle in P. simpl in P. lia. }
  rewrite Z.quot_div_nonneg by lia.
  assert (E : (Qnum x / Zpos (Qden x))%Z = Qfloor x) by now destruct x.
  rewrite E. split; [apply Qfloor_le|].
  pose proof (Qlt_floor x) as F. rewrite inject_Z_plus in F. exact F.
Qed.

(** X5: with non-negative cash and a positive close, the quotient being
    far inside the range of a float, the size [next] computes is a
    non-negative whole number of shares that the cash pays for at the
    close, while one more share would cost more than 90% of the cash. *)
Theorem buy_size_within_cash (cash price : Q) :
  0 <= cash ->
  0 < price ->
  cash <= inject_Z (2 ^ 1000) * price ->
  exists x : Q,
    py_div (cash * (95 # 100)) price = Ok x
    /\ (0 <= py_int x)%Z
    /\ inject_Z (py_int x) * price <= cash
    /\ cash * (9 # 10) < (inject_Z (py_int x) + 1) * price.
Proof.
  intros C P _. exists (Qred (cash * (95 # 100) / price)).
  split; [apply py_div_ok; lra|].
  assert (E : Qred (cash * (95 # 100) / price) == cash * (95 # 100) / price)
    by apply Qred_correct.
  assert (X : 0 <= Qred (cash * (95 # 100) / price)).
  { rewrite E. apply Qle_shift_div_l; [assumption | lra]. }
  destruct (py_int_floor _ X) as [Lo Hi].
  split.
  - unfold py_int. apply Z.quot_pos; [|lia].
    unfold Qle in X. simpl in X. lia.
  - assert (Lo' : inject_Z (py_int (Qred (cash * (95 # 100) / price)))
                 <= cash * (95 # 100) / price) by lra.
    assert (Hi' : cash * (95 # 100) / price
                  < inject_Z (py_int (Qred (cash * (95 # 100) / price))) + 1)
      by lra.
    assert (F : cash * (95 # 100) / price * price == cash * (95 # 100))
      by (field; lra).
    split.
    + apply (Qmult_le_r _ _ price P) in Lo'. lra.
    + apply (Qmult_lt_r _ _ price P) in Hi'. lra.
Qed.

Lemma buy_size_within_cash_witness :
  0 <= 100000
  /\ 0 < 33
  /\ 100000 <= inject_Z (2 ^ 1000) * 33
  /\ exists x : Q,
       py_div (100000 * (95 # 100)) 33 = Ok x
       /\ py_int x = 2878%Z
       /\ inject_Z (py_int x) * 33 <= 100000.
Proof.
  assert (C : 0 <= 100000) by (vm_compute; discriminate).
  assert (P : 0 < 33) by reflexivity.
  assert (R : 100000 <= inject_Z (2 ^ 1000) * 33)
    by (vm_compute; discriminate).
  split; [exact C | split; [exact P | split; [exact R|]]].
  destruct (buy_size_within_cash 100000 33 C P R) as [x [D [_ [L _]]]].
  exists x. split; [exact D|]. split; [|exact L].
  vm_compute in D. injection D as <-. reflexivity.
Defined.

End Sizing.

(** ** Order notifications *)

Section Notifications.

Lemma notify_order_last_operation (st : strategy) (n : notification) :
  last_operation (notify_order st n) = last_operation st.
Proof. unfold notify_order. now destruct (status n). Qed.

(** X6: over any sequence of order notifications [last_operation] never
    changes; notifications that are all Submitted or Accepted change
    nothing at all; and once a notification of any other status has been
    seen no order is pending. *)
Theorem notifications_settle_order (ns : list notification) (st : strategy) :
  last_operation (fold_left notify_order ns st) = last_operation st
  /\ (Forall (fun n => status n = Submitted \/ status n = Accepted) ns ->
      fold_left notify_order ns st = st)
  /\ (Exists (fun n => status n <> Submitted /\ status n <> Accepted) ns ->
      order (fold_left notify_order ns st) = None).
Proof.
  split; [|split].
  - revert st. induction ns as [|n ns IH]; intro st; simpl; [reflexivity|].
    now rewrite IH, notify_order_last_operation.
  - intro F. revert st. induction F as [|n ns [E|E] _ IH]; intro st; simpl;
      [reflexivity | |]; unfold notify_order at 2; rewrite E; apply IH.
  - intro X. revert st.
    assert (K : forall l s, order s = None ->
                            order (fold_left notify_order l s) = None).
    { induction l as [|m l IHl]; intros s O; simpl; [exact O|].
      apply IHl. unfold notify_order. destruct (status m); simpl; auto. }
    induction X as [n ns [N1 N2]|n ns _ IH]; intro st; simpl.
    + apply K. unfold notify_order.
      destruct (status n); simpl; try reflexivity; congruence.
    + apply IH.
Qed.

Lemma notifications_settle_order_witness :
  Forall (fun n => status n = Submitted \/ status n = Accepted)
         [{| status := Submitted; isbuy := true; executed_price := NaN |};
          {| status := Accepted; isbuy := true; executed_price := NaN |}]
  /\ fold_left notify_order
       [{| status := Submitted; isbuy := true; executed_price := NaN |};
        {| status := Accepted; isbuy := true; executed_price := NaN |}]
       bought_at_100 = bought_at_100
  /\ Exists (fun n => status n <> Submitted /\ status n <> Accepted)
       [{| status := Accepted; isbuy := true; executed_price := NaN |};
        {| status := Margin; isbuy := true; executed_price := NaN |}]
  /\ order (fold_left notify_order
              [{| status := Accepted; isbuy := true; executed_price := NaN |};
               {| status := Margin; isbuy := true; executed_price := NaN |}]
              {| buy_price := None;
                 order := Some {| side := buy_op; size := 10 |};
                 last_operation := Some buy_op |}) = None.
Proof.
  assert (F : Forall (fun n => status n = Submitted \/ status n = Accepted)
         [{| status := Submitted; isbuy := true; executed_price := NaN |};
          {| status := Accepted; isbuy := true; executed_price := NaN |}])
    by (repeat constructor; simpl; auto).
  assert (X : Exists (fun n => status n <> Submitted /\ status n <> Accepted)
       [{| status := Accepted; isbuy := true; executed_price := NaN |};
        {| status := Margin; isbuy := true; executed_price := NaN |}])
    by (apply Exists_cons_tl, Exists_cons_hd; simpl; split; discriminate).
  split; [exact F | split].
  - exact (proj1 (proj2 (notifications_settle_order _ bought_at_100)) F).
  - split; [exact X|].
    exact (proj2 (proj2 (notifications_settle_order _ _)) X).
Defined.

End Notifications.

(** ** Ratios of counts *)

Section Stats.

Lemma ratio_in_unit (won total : Z) :
  (0 <= won <= total)%Z -> (0 < total)%Z ->
  0 <= inject_Z won / inject_Z total /\ inject_Z won / inject_Z total <= 1.
Proof.
  intros [W T] P.
  assert (Pq : 0 < inject_Z total).
  { change 0 with (inject_Z 0). rewrite <- Zlt_Qlt. exact P. }
  assert (Wq : 0 <= inject_Z won).
  { change 0 with (inject_Z 0). rewrite <- Zle_Qle. exact W. }
  assert (Tq : inject_Z won <= inject_Z total) by now rewrite <- Zle_Qle.
  split.
  - apply Qle_shift_div_l; [assumption | lra].
  - apply Qle_shift_div_r; [assumption | lra].
Qed.

End Stats.


(** ** The series behind the plot, and the one of main.py *)

Section Series.
Import PerformanceStats.

(** X8: [plot] can build its value series exactly when the engine recorded
    at least one and at most as many values as there are bars; the values
    then sit under the last timestamps, in order.  With nothing recorded
    for a non-empty table, or with more values than bars, the construction
    raises ValueError. *)
Theorem plot_series_needs_values (portfolio_values : list Q)
    (index : list Z) :
  ((0 < length portfolio_values <= length index)%nat ->
   plot_series portfolio_values index
   = Ok (combine (skipn (length index - length portfolio_values) index)
                 (map Fin portfolio_values)))
  /\ (portfolio_values = [] -> index <> [] ->
      plot_series portfolio_values index = Raise ValueError)
  /\ ((length index < length portfolio_values)%nat ->
      plot_series portfolio_values index = Raise ValueError).
Proof.
  unfold plot_series, Main.pd_Series, last_labels. split; [|split].
  - intros [P L]. destruct (length portfolio_values) as [|n] eqn:E; [lia|].
    rewrite length_map, E, length_skipn.
    destruct (Nat.eqb_spec (S n) (length index - (length index - S n)));
      [reflexivity | lia].
  - intros -> N. simpl. destruct index; [contradiction | reflexivity].
  - intro L. destruct (length portfolio_values) as [|n] eqn:E; [lia|].
    rewrite length_map, E, length_skipn.
    destruct (Nat.eqb_spec (S n) (length index - (length index - S n)));
      [lia | reflexivity].
Qed.

Lemma plot_series_needs_values_witness :
  (0 < length [100; 110] <= length [1; 2; 3]%Z)%nat
  /\ plot_series [100; 110] [1; 2; 3]%Z
     = Ok [(2%Z, Fin 100); (3%Z, Fin 110)]
  /\ plot_series [] [1; 2; 3]%Z = Raise ValueError
  /\ (length [1]%Z < length [100; 110])%nat
  /\ plot_series [100; 110] [1]%Z = Raise ValueError.
Proof.
  assert (L : (0 < length [100; 110] <= length [1; 2; 3]%Z)%nat)
    by (simpl; lia).
  assert (L' : (length [1]%Z < length [100; 110])%nat) by (simpl; lia).
  split; [exact L | split].
  - exact (proj1 (plot_series_needs_values [100; 110] [1; 2; 3]%Z) L).
  - split.
    + apply (proj1 (proj2 (plot_series_needs_values [] [1; 2; 3]%Z)));
        [reflexivity | discriminate].
    + split; [exact L'|].
      exact (proj2 (proj2 (plot_series_needs_values [100; 110] [1]%Z)) L').
Defined.

Lemma last_padded (l : list Q) (x : Q) (j : nat) :
  last (l ++ repeat (last l x) j) x = last l x.
Proof.
  destruct j as [|j]; simpl; [now rewrite app_nil_r|].
  rewrite repeat_cons, app_assoc. apply last_last.
Qed.

Lemma align_fold_closed (ev : list Q) (m : nat) :
  forall k : nat,
  fold_left (Main.align_step ev) (seq k m)
    (firstn k ev ++ repeat (last ev 100000) (k - length ev))
  = firstn (k + m) ev ++ repeat (last ev 100000) (k + m - length ev).
Proof.
  induction m as [|m IH]; intro k; simpl.
  - now rewrite Nat.add_0_r.
  - replace (k + S m)%nat with (S k + m)%nat by lia. rewrite <- IH.
    f_equal. unfold Main.align_step.
    destruct (Nat.ltb_spec k (length ev)) as [L|L].
    + replace (k - length ev)%nat with 0%nat by lia.
      replace (S k - length ev)%nat with 0%nat by lia.
      simpl. rewrite !app_nil_r. symmetry. now apply firstn_snoc.
    + rewrite !firstn_all2 by lia. rewrite last_padded.
      replace (S k - length ev)%nat with (S (k - length ev)) by lia.
      rewrite <- app_assoc. f_equal. simpl. symmetry. apply repeat_cons.
Qed.

(** X9: the list main.py builds for [n] bars is the first [n] recorded
    values, followed, when fewer than [n] were recorded, by copies of the
    last recorded value, or of 100000 when nothing was recorded. *)
Theorem align_truncates_and_pads (ev : list Q) (n : nat) :
  Main.align ev n
  = firstn n ev ++ repeat (last ev 100000) (n - length ev).
Proof.
  unfold Main.align.
  change (@nil Q) with (firstn 0 ev ++ repeat (last ev 100000) (0 - length ev)).
  now rewrite (align_fold_closed ev n 0).
Qed.

End Series.

(** ** More on the metrics *)

Section Metrics.
Import PerformanceAnalyzer.

Lemma winning_is_moving (r : fval) :
  (r >? Fin 0)%F = true -> (r !=? Fin 0)%F = true.
Proof.
  unfold fgtb, fneb. destruct r as [q| | |]; simpl; try discriminate;
    try reflexivity.
  rewrite Qltb_lt, negb_true_iff, Qeq_bool_false. intros P E.
  apply (Qlt_not_eq 0 q P). now symmetry.
Qed.

Lemma winning_le_moving (dr : list fval) :
  (winning_days dr <= moving_days dr)%nat.
Proof.
  unfold winning_days, moving_days, count.
  induction dr as [|r dr IH]; cbn [filter length]; [lia|].
  destruct (r >? Fin 0)%F eqn:W.
  - rewrite (winning_is_moving r W). cbn [length]. lia.
  - destruct (r !=? Fin 0)%F; cbn [length]; lia.
Qed.

Variable np_sqrt : fval -> fval.
Variable np_power : fval -> fval -> fval.

(** X10: whenever [calculate_metrics] returns, the daily win rate it
    reports is a finite percentage between 0 and 100: a winning day is
    always a moving day. *)
Theorem win_rate_is_percentage (vs : list Q) (m : metrics) :
  calculate_metrics np_sqrt np_power vs = Ok m ->
  exists w : Q, win_rate_pct m = Fin w /\ 0 <= w /\ w <= 100.
Proof.
  destruct vs as [|v0 rest]; [discriminate|].
  rewrite calculate_metrics_unfold. unfold calc_win_rate.
  destruct (Nat.eqb_spec (moving_days (daily_returns (v0 :: rest))) 0)
    as [|M]; [discriminate|].
  simpl. intro E. injection E as <-. simpl.
  eexists. split; [reflexivity|].
  pose proof (winning_le_moving (daily_returns (v0 :: rest))) as L.
  destruct (ratio_in_unit
              (Z.of_nat (winning_days (daily_returns (v0 :: rest))))
              (Z.of_nat (moving_days (daily_returns (v0 :: rest)))))
    as [R0 R1]; [lia | lia |].
  rewrite !Qred_correct. split; lra.
Qed.

Lemma return_is_zero (x u : Q) :
  0 < u ->
  ((Fin x / Fin u - Fin 1) !=? Fin 0)%F = false <-> x == u.
Proof.
  intro U. rewrite fdiv_fin by lra.
  unfold fneb, fsub, fneg, fadd, fin; simpl.
  rewrite negb_false_iff, Qeq_bool_iff, !Qred_correct.
  split; intro E.
  - assert (F : x == x / u * u) by (field; lra).
    rewrite F. assert (G : x / u == 1) by lra. rewrite G. ring.
  - rewrite E. field. lra.
Qed.

Lemma return_is_valid (x u : Q) :
  0 < u -> is_nan (Fin x / Fin u - Fin 1)%F = false.
Proof. intro U. rewrite fdiv_fin by lra. reflexivity. Qed.

Lemma flat_iff_no_moving_day (rest : list Q) :
  forall u : Q, 0 < u -> Forall (Qlt 0) rest ->
  moving_days (fillna (Fin 0) (pct_from (Fin u) (map Fin rest))) = 0%nat
  <-> Forall (fun v => v == u) rest.
Proof.
  induction rest as [|x rest IH]; intros u U F.
  - split; [constructor | reflexivity].
  - inversion F as [|? ? X F']; subst.
    unfold moving_days, count. cbn [map pct_from fillna filter].
    rewrite (return_is_valid x u U).
    destruct ((Fin x / Fin u - Fin 1) !=? Fin 0)%F eqn:E.
    + split; [discriminate|]. intro A. inversion A as [|? ? Xu _]; subst.
      apply (return_is_zero x u U) in Xu. congruence.
    + apply (return_is_zero x u U) in E.
      fold (count (fun r => (r !=? Fin 0)%F)
                  (fillna (Fin 0) (pct_from (Fin x) (map Fin rest)))).
      fold (moving_days (fillna (Fin 0) (pct_from (Fin x) (map Fin rest)))).
      rewrite (IH x X F'). split; intro A.
      * constructor; [exact E|].
        eapply Forall_impl; [|exact A]. intros a Ha; simpl in Ha.
        now rewrite Ha.
      * inversion A; subst. eapply Forall_impl; [|eassumption].
        intros a Ha; simpl in Ha. now rewrite Ha, E.
Qed.

(** X11: on a series of positive values [calculate_metrics] raises
    ZeroDivisionError exactly when the series is flat (every value equals
    the first); on every other positive series it returns the metrics. *)
Theorem metrics_need_a_move (v0 : Q) (rest : list Q) :
  Forall (Qlt 0) (v0 :: rest) ->
  (calculate_metrics np_sqrt np_power (v0 :: rest) = Raise ZeroDivisionError
   <-> Forall (fun v => v == v0) rest)
  /\ (~ Forall (fun v => v == v0) rest ->
      exists m : metrics,
        calculate_metrics np_sqrt np_power (v0 :: rest) = Ok m).
Proof.
  intro F. inversion F as [|? ? V0 F']; subst.
  pose proof (flat_iff_no_moving_day rest v0 V0 F') as K.
  rewrite calculate_metrics_unfold. unfold calc_win_rate.
  rewrite daily_returns_cons.
  change (moving_days
            (Fin 0 :: fillna (Fin 0) (pct_from (Fin v0) (map Fin rest))))
    with (moving_days (fillna (Fin 0) (pct_from (Fin v0) (map Fin rest)))).
  destruct (Nat.eqb_spec
              (moving_days (fillna (Fin 0) (pct_from (Fin v0) (map Fin rest))))
              0) as [M|M]; simpl.
  - split; [split; [intros _; now apply K | reflexivity]|].
    intro N. exfalso. apply N. now apply K.
  - split; [split; [discriminate | intro A; apply K in A; contradiction]|].
    intros _. eexists. reflexivity.
Qed.

Lemma last_positive (l : list Q) (d : Q) :
  0 < d -> Forall (Qlt 0) l -> 0 < last l d.
Proof.
  intros D F. induction F as [|x l X F IH]; [exact D|].
  destruct l as [|y l]; [exact X | exact IH].
Qed.

(** X12: on a series of positive values the total return is a finite
    percentage above -100; it is positive exactly when the last value is
    above the first and zero exactly when the two are equal. *)
Theorem total_return_sign (v0 : Q) (rest : list Q) :
  Forall (Qlt 0) (v0 :: rest) ->
  exists t : Q,
    calc_total_return (v0 :: rest) = Ok (Fin t)
    /\ -(100) < t
    /\ (0 < t <-> v0 < last (v0 :: rest) v0)
    /\ (t == 0 <-> last (v0 :: rest) v0 == v0).
Proof.
  intro F. inversion F as [|? ? V0 F']; subst.
  pose proof (last_positive (v0 :: rest) v0 V0 F) as L.
  set (l := last (v0 :: rest) v0) in *.
  unfold calc_total_return. fold l. rewrite fdiv_fin by lra.
  eexists. split; [reflexivity|].
  assert (R : 0 < l / v0) by (apply Qlt_shift_div_l; lra).
  assert (G : l == l / v0 * v0) by (field; lra).
  rewrite !Qred_correct.
  assert (S1 : 1 < l / v0 <-> v0 < l).
  { split; intro H.
    - apply (Qmult_lt_r _ _ v0 V0) in H. lra.
    - apply Qlt_shift_div_l; lra. }
  assert (S2 : l / v0 == 1 <-> l == v0).
  { split; intro H; [rewrite G, H; ring | rewrite H; field; lra]. }
  split; [lra|]. split.
  - rewrite <- S1. split; intro H; lra.
  - rewrite <- S2. split; intro H; lra.
Qed.

End Metrics.

Lemma win_rate_is_percentage_witness :
  exists m : PerformanceAnalyzer.metrics,
    PerformanceAnalyzer.calculate_metrics approx_sqrt approx_power
      dipping_values = Ok m
    /\ exists w : Q,
         PerformanceAnalyzer.win_rate_pct m = Fin w /\ 0 <= w /\ w <= 100.
Proof.
  destruct (PerformanceAnalyzer.calculate_metrics approx_sqrt approx_power
              dipping_values) as [m|e] eqn:E.
  - exists m. split; [reflexivity|].
    exact (win_rate_is_percentage approx_sqrt approx_power dipping_values m E).
  - vm_compute in E. discriminate.
Defined.

Lemma metrics_need_a_move_witness :
  Forall (Qlt 0) (100 :: [100; 100])
  /\ PerformanceAnalyzer.calculate_metrics approx_sqrt approx_power
       (100 :: [100; 100]) = Raise ZeroDivisionError
  /\ Forall (Qlt 0) (100 :: [120; 90; 130])
  /\ ~ Forall (fun v => v == 100) [120; 90; 130]
  /\ exists m : PerformanceAnalyzer.metrics,
       PerformanceAnalyzer.calculate_metrics approx_sqrt approx_power
         (100 :: [120; 90; 130]) = Ok m.
Proof.
  assert (F : Forall (Qlt 0) (100 :: [100; 100])) by (repeat constructor).
  assert (F' : Forall (Qlt 0) (100 :: [120; 90; 130]))
    by (repeat constructor).
  assert (N : ~ Forall (fun v => v == 100) [120; 90; 130]).
  { intro A. inversion A as [|? ? E _]; subst. vm_compute in E. discriminate. }
  split; [exact F | split].
  - apply (proj1 (metrics_need_a_move approx_sqrt approx_power 100 [100; 100]
                    F)).
    repeat constructor.
  - split; [exact F' | split; [exact N|]].
    exact (proj2 (metrics_need_a_move approx_sqrt approx_power 100
                    [120; 90; 130] F') N).
Defined.

Lemma total_return_sign_witness :
  Forall (Qlt 0) (100 :: [120; 90; 130])
  /\ exists t : Q,
       PerformanceAnalyzer.calc_total_return (100 :: [120; 90; 130])
       = Ok (Fin t)
       /\ -(100) < t
       /\ (0 < t <-> 100 < last (100 :: [120; 90; 130]) 100)
       /\ (t == 0 <-> last (100 :: [120; 90; 130]) 100 == 100).
Proof.
  assert (F : Forall (Qlt 0) (100 :: [120; 90; 130])) by (repeat constructor).
  split; [exact F|]. exact (total_return_sign 100 [120; 90; 130] F).
Defined.

(** ** Range and lookback of the RSI *)

Section RSIRange.
Import FactorAnalyzer Reference.

Lemma In_firstn {A : Type} (n : nat) (l : list A) (x : A) :
  In x (firstn n l) -> In x l.
Proof.
  intro I. rewrite <- (firstn_skipn n l). apply in_or_app. now left.
Qed.

Lemma In_skipn {A : Type} (n : nat) (l : list A) (x : A) :
  In x (skipn n l) -> In x l.
Proof.
  intro I. rewrite <- (firstn_skipn n l). apply in_or_app. now right.
Qed.

Lemma In_window (w i : nat) (l : list fval) (x : fval) :
  In x (window_at w l i) -> In x l.
Proof.
  unfold window_at. intro I. eapply In_firstn, In_skipn, I.
Qed.

Lemma window_full (w i : nat) (l : list fval) :
  (i < length l)%nat ->
  length (window_at w l i) = Nat.min w (S i).
Proof.
  intro L. unfold window_at. rewrite length_skipn, length_firstn. lia.
Qed.

Lemma window_short (w i : nat) (l : list fval) :
  (S i < w)%nat -> (length (window_at w l i) <? w)%nat = true.
Proof.
  intro L. unfold window_at. apply Nat.ltb_lt.
  rewrite length_skipn, length_firstn. lia.
Qed.

Lemma fsum_amounts (l : list fval) :
  Forall amount l ->
  forall acc : Q, 0 <= acc ->
  exists s : Q, fold_left fadd l (Fin acc) = Fin s /\ 0 <= s.
Proof.
  induction 1 as [|x l [q [-> Q0]] _ IH]; intros acc A; simpl.
  - now exists acc.
  - apply IH. rewrite Qred_correct. lra.
Qed.

Lemma amounts_valid (l : list fval) :
  Forall amount l -> existsb is_nan l = false.
Proof.
  induction 1 as [|x l [q [-> _]] _ IH]; simpl; [reflexivity | exact IH].
Qed.

Lemma nth_map_seq {A : Type} (f : nat -> A) (n i : nat) (d : A) :
  (i < n)%nat -> nth i (map f (seq 0 n)) d = f i.
Proof.
  intro L.
  rewrite (nth_indep _ d (f 0%nat)) by now rewrite length_map, length_seq.
  rewrite (map_nth f). now rewrite seq_nth.
Qed.

Lemma rolling_mean_nth (w : nat) (l : list fval) (i : nat) :
  (i < length l)%nat ->
  nth i (rolling_mean w l) NaN
  = if (length (window_at w l i) <? w)%nat || existsb is_nan (window_at w l i)
    then NaN
    else (fsum (window_at w l i) / of_nat w)%F.
Proof.
  intro L. unfold rolling_mean. now rewrite nth_map_seq.
Qed.

Lemma rolling_mean_length (w : nat) (l : list fval) :
  length (rolling_mean w l) = length l.
Proof. unfold rolling_mean. now rewrite length_map, length_seq. Qed.

(** Inside the lookback the mean is missing; from the first full window
    on, the mean of amounts is an amount. *)
Lemma rolling_mean_amounts (w : nat) (l : list fval) (i : nat) :
  (0 < w)%nat ->
  Forall amount l ->
  (i < length l)%nat ->
  ((S i < w)%nat -> nth i (rolling_mean w l) NaN = NaN)
  /\ ((w <= S i)%nat -> amount (nth i (rolling_mean w l) NaN)).
Proof.
  intros W F L. rewrite (rolling_mean_nth w l i L). split; intro C.
  - now rewrite (window_short w i l C).
  - assert (Fw : Forall amount (window_at w l i)).
    { rewrite Forall_forall in F |- *. intros x I.
      apply F. eapply In_window, I. }
    destruct (Nat.ltb_spec (length (window_at w l i)) w) as [S|_].
    + rewrite (window_full w i l L) in S. lia.
    + rewrite (amounts_valid _ Fw). simpl.
      destruct (fsum_amounts _ Fw 0 (Qle_refl 0)) as [s [E S0]].
      unfold fsum. rewrite E. unfold of_nat, of_Z.
      assert (Wq : 0 < inject_Z (Z.of_nat w)).
      { change 0 with (inject_Z 0). rewrite <- Zlt_Qlt. lia. }
      rewrite fdiv_fin by lra. eexists. split; [reflexivity|].
      rewrite Qred_correct. apply Qle_shift_div_l; [assumption | lra].
Qed.

Lemma diff_from_finite (l : list Q) :
  forall prev : Q,
  Forall (fun d => exists q : Q, d = Fin q) (diff_from (Fin prev) (map Fin l)).
Proof.
  induction l as [|x l IH]; intro prev; simpl; constructor.
  - eexists. reflexivity.
  - apply IH.
Qed.

Lemma delta_values (close : list Q) :
  Forall (fun d => d = NaN \/ exists q : Q, d = Fin q) (delta close).
Proof.
  unfold delta, diff. destruct close as [|x l]; simpl; constructor.
  - now left.
  - eapply Forall_impl; [|apply diff_from_finite]. intros d H. now right.
Qed.

Lemma ups_are_amounts (close : list Q) :
  Forall amount (where_ (fun d => (d >? Fin 0)%F) (Fin 0) (delta close)).
Proof.
  unfold where_. apply Forall_map.
  eapply Forall_impl; [|apply delta_values].
  intros d [->|[q ->]]; simpl.
  - exists 0. split; [reflexivity | apply Qle_refl].
  - unfold fgtb; simpl. destruct (Qltb 0 q) eqn:E.
    + apply Qltb_lt in E. exists q. split; [reflexivity | lra].
    + exists 0. split; [reflexivity | apply Qle_refl].
Qed.

Lemma downs_are_amounts (close : list Q) :
  Forall amount
    (map fneg (where_ (fun d => (d <? Fin 0)%F) (Fin 0) (delta close))).
Proof.
  unfold where_. rewrite map_map. apply Forall_map.
  eapply Forall_impl; [|apply delta_values].
  intros d [->|[q ->]]; simpl.
  - exists (Qred (- 0)). split; [reflexivity | now rewrite Qred_correct].
  - destruct (Qltb q 0) eqn:E; simpl.
    + apply Qltb_lt in E. exists (Qred (- q)).
      split; [reflexivity | rewrite Qred_correct; lra].
    + exists (Qred (- 0)). split; [reflexivity | now rewrite Qred_correct].
Qed.

Lemma delta_length (close : list Q) : length (delta close) = length close.
Proof.
  unfold delta, diff. destruct close as [|x l]; simpl; [reflexivity|].
  f_equal. generalize (Fin x). induction l as [|y l IH]; intro p; simpl;
    [reflexivity | now rewrite IH].
Qed.

Lemma gain_length (close : list Q) : length (gain close) = length close.
Proof.
  unfold gain, where_.
  now rewrite rolling_mean_length, length_map, delta_length.
Qed.

Lemma loss_length (close : list Q) : length (loss close) = length close.
Proof.
  unfold loss, where_.
  now rewrite rolling_mean_length, !length_map, delta_length.
Qed.

Lemma zip_with_length (f : fval -> fval -> fval) (a : list fval) :
  forall b : list fval,
  length (zip_with f a b) = Nat.min (length a) (length b).
Proof.
  induction a as [|x a IH]; intros [|y b]; simpl; try reflexivity.
  now rewrite IH.
Qed.

Lemma rsi_length (close : list Q) : length (rsi close) = length close.
Proof.
  unfold rsi, rs.
  rewrite length_map, zip_with_length, gain_length, loss_length. lia.
Qed.

(** The two averages at a bar. *)
Lemma averages_at (close : list Q) (i : nat) :
  (i < length close)%nat ->
  ((i < 13)%nat ->
   nth i (gain close) NaN = NaN /\ nth i (loss close) NaN = NaN)
  /\ ((13 <= i)%nat ->
      amount (nth i (gain close) NaN) /\ amount (nth i (loss close) NaN)).
Proof.
  intro L.
  assert (Lu : (i < length (where_ (fun d => (d >? Fin 0)%F) (Fin 0)
                              (delta close)))%nat)
    by (unfold where_; now rewrite length_map, delta_length).
  assert (Ld : (i < length (map fneg (where_ (fun d => (d <? Fin 0)%F)
                                        (Fin 0) (delta close))))%nat)
    by (unfold where_; now rewrite !length_map, delta_length).
  destruct (rolling_mean_amounts 14 _ i ltac:(lia) (ups_are_amounts close) Lu)
    as [U1 U2].
  destruct (rolling_mean_amounts 14 _ i ltac:(lia) (downs_are_amounts close)
              Ld) as [D1 D2].
  unfold gain, loss. split; intro C; split;
    [apply U1 | apply D1 | apply U2 | apply D2]; lia.
Qed.

Lemma rsi_of_averages (g l : Q) :
  0 <= g -> 0 <= l ->
  ((Fin 100 - Fin 100 / (Fin 1 + Fin g / Fin l))%F = NaN
   <-> g == 0 /\ l == 0)
  /\ ((Fin 100 - Fin 100 / (Fin 1 + Fin g / Fin l))%F = NaN
      \/ exists q : Q,
           (Fin 100 - Fin 100 / (Fin 1 + Fin g / Fin l))%F = Fin q
           /\ 0 <= q /\ q <= 100).
Proof.
  intros G L. destruct (Qeq_bool l 0) eqn:E.
  - assert (L0 : l == 0) by now apply Qeq_bool_iff.
    cbn [fdiv]. rewrite E.
    destruct (Qlt_le_dec 0 g) as [P|P].
    + rewrite (inf_of_positive g P). split.
      * split; [discriminate | intros [G0 _]; lra].
      * right. eexists. split; [reflexivity|]. vm_compute. split; discriminate.
    + assert (G0 : g == 0) by lra. rewrite (inf_of_zero g G0).
      split; [split; [intros _; now split | reflexivity] | now left].
  - assert (L0 : ~ l == 0) by now apply Qeq_bool_false.
    assert (Lp : 0 < l) by lra.
    assert (R : 0 <= g / l) by (apply Qle_shift_div_l; lra).
    assert (N1 : ~ Qred (1 + Qred (g / l)) == 0)
      by (rewrite !Qred_correct; lra).
    assert (Ev : (Fin 100 - Fin 100 / (Fin 1 + Fin g / Fin l))%F
                 = Fin (Qred (100 + Qred (- Qred (100 / Qred
                                                   (1 + Qred (g / l))))))).
    { rewrite (fdiv_fin g l L0). unfold fin. cbn [fadd]. unfold fin.
      rewrite (fdiv_fin _ _ N1). reflexivity. }
    rewrite Ev. split.
    + split; [discriminate | intros [_ L1]; contradiction].
    + right. eexists. split; [reflexivity|].
      rewrite !Qred_correct.
      assert (D : 0 < 1 + g / l) by lra.
      assert (H0 : 0 < 100 / (1 + g / l)) by (apply Qlt_shift_div_l; lra).
      assert (H1 : 100 / (1 + g / l) <= 100)
        by (apply Qle_shift_div_r; lra).
      split; lra.
Qed.

(** X13: every RSI value is either missing or a number between 0 and
    100. *)
Theorem rsi_in_range (close : list Q) :
  Forall (fun x => x = NaN \/ exists q : Q, x = Fin q /\ 0 <= q /\ q <= 100)
         (rsi close).
Proof.
  apply Forall_forall. intros x I.
  destruct (In_nth _ _ NaN I) as [i [L <-]].
  rewrite rsi_length in L. rewrite nth_rsi.
  destruct (averages_at close i L) as [Early Late].
  destruct (Nat.lt_ge_cases i 13) as [C|C].
  - destruct (Early C) as [-> ->]. now left.
  - destruct (Late C) as [[g [-> G]] [l [-> L0]]].
    exact (proj2 (rsi_of_averages g l G L0)).
Qed.

(** X14: the RSI column has one entry per bar.  It is missing on the
    first 13 bars; from the 14th bar on both rolling averages are finite and
    non-negative, and the RSI is missing exactly when both are zero. *)
Theorem rsi_lookback (close : list Q) (i : nat) :
  length (rsi close) = length close
  /\ ((i < 13)%nat -> nth i (rsi close) NaN = NaN)
  /\ ((13 <= i < length close)%nat ->
      exists g l : Q,
        nth i (gain close) NaN = Fin g /\ 0 <= g
        /\ nth i (loss close) NaN = Fin l /\ 0 <= l
        /\ (nth i (rsi close) NaN = NaN <-> g == 0 /\ l == 0)).
Proof.
  split; [apply rsi_length|]. split.
  - intro C. destruct (Nat.lt_ge_cases i (length close)) as [L|L].
    + rewrite nth_rsi. destruct (averages_at close i L) as [Early _].
      now destruct (Early C) as [-> ->].
    + apply nth_overflow. now rewrite rsi_length.
  - intros [C L]. destruct (averages_at close i L) as [_ Late].
    destruct (Late C) as [[g [Eg G]] [l [El L0]]].
    exists g, l. split; [exact Eg|]. split; [exact G|].
    split; [exact El|]. split; [exact L0|].
    rewrite nth_rsi, Eg, El. exact (proj1 (rsi_of_averages g l G L0)).
Qed.

Lemma rsi_lookback_witness :
  (5 < 13)%nat
  /\ nth 5 (rsi wavy_close) NaN = NaN
  /\ (13 <= 14 < length wavy_close)%nat
  /\ exists g l : Q,
       nth 14 (gain wavy_close) NaN = Fin g /\ 0 <= g
       /\ nth 14 (loss wavy_close) NaN = Fin l /\ 0 <= l
       /\ (nth 14 (rsi wavy_close) NaN = NaN <-> g == 0 /\ l == 0).
Proof.
  assert (C : (5 < 13)%nat) by lia.
  assert (L : (13 <= 14 < length wavy_close)%nat) by (cbv; lia).
  split; [exact C | split].
  - exact (proj1 (proj2 (rsi_lookback wavy_close 5)) C).
  - split; [exact L|]. exact (proj2 (proj2 (rsi_lookback wavy_close 14)) L).
Defined.

End RSIRange.

(** ** The MACD columns *)

Section MACD.
Import Factors.

Lemma ewm_from_length (a : Q) (l : list Q) :
  forall prev : Q, length (ewm_from a prev l) = length l.
Proof.
  induction l as [|x l IH]; intro prev; simpl; [reflexivity|].
  now rewrite IH.
Qed.

Lemma ewm_mean_length (span : Z) (l : list Q) :
  length (ewm_mean span l) = length l.
Proof.
  destruct l as [|x l]; simpl; [reflexivity|]. now rewrite ewm_from_length.
Qed.

Lemma sub_columns_length (a b : list Q) :
  length (sub_columns a b) = Nat.min (length a) (length b).
Proof. unfold sub_columns. now rewrite length_map, length_combine. Qed.

Lemma macd_length (close : list Q) : length (macd close) = length close.
Proof.
  unfold macd. rewrite sub_columns_length, !ewm_mean_length. lia.
Qed.

Lemma Qred_self_difference (x : Q) : Qred (x - x) = 0.
Proof.
  change 0 with (Qred 0). apply Qred_complete. ring.
Qed.

(** X15: the MACD line, its signal line and the histogram have one entry
    per bar, none of them missing, and on the first bar all three are
    exactly 0: both averages are seeded with the first close. *)
Theorem macd_starts_at_zero (close : list Q) :
  close <> [] ->
  length (macd close) = length close
  /\ length (signal close) = length close
  /\ length (macd_hist close) = length close
  /\ hd 1 (macd close) = 0
  /\ hd 1 (signal close) = 0
  /\ hd 1 (macd_hist close) = 0.
Proof.
  intro N. split; [apply macd_length|].
  split; [unfold signal; now rewrite ewm_mean_length, macd_length|].
  split.
  - unfold macd_hist, signal.
    rewrite sub_columns_length, ewm_mean_length, macd_length. lia.
  - destruct close as [|x l]; [contradiction|].
    assert (M : macd (x :: l)
                = 0 :: sub_columns (ewm_from (alpha 12) x l)
                                    (ewm_from (alpha 26) x l)).
    { unfold macd, sub_columns. simpl. now rewrite Qred_self_difference. }
    unfold macd_hist, signal. rewrite M. simpl.
    split; [reflexivity | split; reflexivity].
Qed.

Lemma macd_starts_at_zero_witness :
  wavy_close <> []
  /\ length (macd_hist wavy_close) = length wavy_close
  /\ hd 1 (macd wavy_close) = 0
  /\ hd 1 (macd_hist wavy_close) = 0.
Proof.
  assert (N : wavy_close <> []) by discriminate.
  destruct (macd_starts_at_zero wavy_close N) as [_ [_ [L [M [_ H]]]]].
  split; [exact N | split; [exact L | split; [exact M | exact H]]].
Defined.

Lemma alpha_in_unit (span : Z) :
  (1 <= span)%Z -> 0 < alpha span /\ alpha span <= 1.
Proof.
  intro S. unfold alpha.
  assert (P : 1 <= inject_Z span).
  { change 1 with (inject_Z 1). now rewrite <- Zle_Qle. }
  split.
  - apply Qlt_shift_div_l; lra.
  - apply Qle_shift_div_r; lra.
Qed.

Lemma between_step (a lo hi p x : Q) :
  0 <= a -> a <= 1 ->
  lo <= p -> p <= hi -> lo <= x -> x <= hi ->
  lo <= (1 - a) * p + a * x /\ (1 - a) * p + a * x <= hi.
Proof.
  intros A0 A1 P0 P1 X0 X1.
  assert (H1 : 0 <= (1 - a) * (p - lo)) by (apply Qmult_le_0_compat; lra).
  assert (H2 : 0 <= a * (x - lo)) by (apply Qmult_le_0_compat; lra).
  assert (H3 : 0 <= (1 - a) * (hi - p)) by (apply Qmult_le_0_compat; lra).
  assert (H4 : 0 <= a * (hi - x)) by (apply Qmult_le_0_compat; lra).
  split.
  - setoid_replace ((1 - a) * p + a * x)
      with (lo + ((1 - a) * (p - lo) + a * (x - lo))) by ring.
    lra.
  - setoid_replace ((1 - a) * p + a * x)
      with (hi - ((1 - a) * (hi - p) + a * (hi - x))) by ring.
    lra.
Qed.

Lemma ewm_from_between (a lo hi : Q) (l : list Q) :
  0 <= a -> a <= 1 ->
  Forall (fun x => lo <= x /\ x <= hi) l ->
  forall prev : Q, lo <= prev -> prev <= hi ->
  Forall (fun y => lo <= y /\ y <= hi) (ewm_from a prev l).
Proof.
  intros A0 A1. induction 1 as [|x l [X0 X1] _ IH]; intros prev P0 P1;
    simpl; constructor.
  - rewrite Qred_correct. now apply between_step.
  - destruct (between_step a lo hi prev x A0 A1 P0 P1 X0 X1) as [B0 B1].
    apply IH; now rewrite Qred_correct.
Qed.

Lemma ewm_mean_between (span : Z) (lo hi : Q) (l : list Q) :
  (1 <= span)%Z ->
  Forall (fun x => lo <= x /\ x <= hi) l ->
  Forall (fun y => lo <= y /\ y <= hi) (ewm_mean span l).
Proof.
  intros S F. destruct (alpha_in_unit span S) as [A0 A1].
  destruct F as [|x l [X0 X1] F]; simpl; constructor.
  - now split.
  - apply ewm_from_between; try assumption. lra.
Qed.

Lemma sub_columns_between (a b : list Q) (la ha lb hb : Q) :
  Forall (fun x => la <= x /\ x <= ha) a ->
  Forall (fun x => lb <= x /\ x <= hb) b ->
  Forall (fun d => la - hb <= d /\ d <= ha - lb) (sub_columns a b).
Proof.
  intros Fa Fb. unfold sub_columns. apply Forall_map.
  rewrite Forall_forall in Fa, Fb |- *. intros [x y] I. simpl.
  destruct (Fa x (in_combine_l _ _ _ _ I)) as [X0 X1].
  destruct (Fb y (in_combine_r _ _ _ _ I)) as [Y0 Y1].
  rewrite Qred_correct. split; lra.
Qed.

(** X16: in exact arithmetic an exponential average never leaves the range
    of its data.  So when every close lies between [lo] and [hi], the MACD
    line and its signal line stay within plus or minus (hi - lo) and the
    histogram within twice that. *)
Theorem macd_within_price_range (close : list Q) (lo hi : Q) :
  Forall (fun x => lo <= x /\ x <= hi) close ->
  Forall (fun y => lo <= y /\ y <= hi) (ewm_mean 12 close)
  /\ Forall (fun m => lo - hi <= m /\ m <= hi - lo) (macd close)
  /\ Forall (fun s => lo - hi <= s /\ s <= hi - lo) (signal close)
  /\ Forall (fun h => (lo - hi) - (hi - lo) <= h
                      /\ h <= (hi - lo) - (lo - hi)) (macd_hist close).
Proof.
  intro F.
  assert (E12 := ewm_mean_between 12 lo hi close ltac:(lia) F).
  assert (E26 := ewm_mean_between 26 lo hi close ltac:(lia) F).
  assert (M := sub_columns_between _ _ lo hi lo hi E12 E26).
  fold (macd close) in M.
  assert (S := ewm_mean_between 9 (lo - hi) (hi - lo) (macd close)
                 ltac:(lia) M).
  fold (signal close) in S.
  split; [exact E12 | split; [exact M | split; [exact S|]]].
  exact (sub_columns_between _ _ _ _ _ _ M S).
Qed.

Lemma macd_within_price_range_witness :
  Forall (fun x => 10 <= x /\ x <= 14) wavy_close
  /\ Forall (fun m => 10 - 14 <= m /\ m <= 14 - 10) (macd wavy_close).
Proof.
  assert (F : Forall (fun x => 10 <= x /\ x <= 14) wavy_close)
    by (repeat constructor; vm_compute; discriminate).
  split; [exact F|].
  exact (proj1 (proj2 (macd_within_price_range wavy_close 10 14 F))).
Defined.

End MACD.

(** ** The price position *)

Section PricePosition.
Import Factors.

Lemma fold_min_finite (qs : list Q) :
  forall m0 : Q,
  exists m : Q,
    fold_left (observe fmin) (map Fin qs) (Some (Fin m0)) = Some (Fin m)
    /\ m <= m0 /\ Forall (fun x => m <= x) qs.
Proof.
  induction qs as [|x qs IH]; intro m0; simpl.
  - exists m0. split; [reflexivity | split; [apply Qle_refl | constructor]].
  - unfold observe at 2, fmin. cbn [is_nan fltb].
    destruct (Qltb x m0) eqn:E.
    + apply Qltb_lt in E. destruct (IH x) as [m [F [L A]]].
      exists m. split; [exact F | split; [lra | now constructor]].
    + apply Qltb_ge in E. destruct (IH m0) as [m [F [L A]]].
      exists m. split; [exact F | split; [exact L | constructor; [lra|exact A]]].
Qed.

Lemma fold_max_finite (qs : list Q) :
  forall m0 : Q,
  exists m : Q,
    fold_left (observe fmax) (map Fin qs) (Some (Fin m0)) = Some (Fin m)
    /\ m0 <= m /\ Forall (fun x => x <= m) qs.
Proof.
  induction qs as [|x qs IH]; intro m0; simpl.
  - exists m0. split; [reflexivity | split; [apply Qle_refl | constructor]].
  - unfold observe at 2, fmax. cbn [is_nan fltb].
    destruct (Qltb m0 x) eqn:E.
    + apply Qltb_lt in E. destruct (IH x) as [m [F [L A]]].
      exists m. split; [exact F | split; [lra | now constructor]].
    + apply Qltb_ge in E. destruct (IH m0) as [m [F [L A]]].
      exists m. split; [exact F | split; [exact L | constructor; [lra|exact A]]].
Qed.

Lemma window_min (qs : list Q) :
  qs <> [] ->
  exists m : Q,
    seen (fold_left (observe fmin) (map Fin qs) None) = Fin m
    /\ Forall (fun x => m <= x) qs.
Proof.
  destruct qs as [|x qs]; [contradiction|]. intros _. simpl.
  change (observe fmin None (Fin x)) with (Some (Fin x)).
  destruct (fold_min_finite qs x) as [m [F [L A]]].
  exists m. rewrite F. split; [reflexivity | now constructor].
Qed.

Lemma window_max (qs : list Q) :
  qs <> [] ->
  exists m : Q,
    seen (fold_left (observe fmax) (map Fin qs) None) = Fin m
    /\ Forall (fun x => x <= m) qs.
Proof.
  destruct qs as [|x qs]; [contradiction|]. intros _. simpl.
  change (observe fmax None (Fin x)) with (Some (Fin x)).
  destruct (fold_max_finite qs x) as [m [F [L A]]].
  exists m. rewrite F. split; [reflexivity | now constructor].
Qed.

Lemma current_in_window (qs : list Q) (d : Q) :
  forall i a : nat,
  (i < length qs)%nat -> (a <= i)%nat ->
  In (nth i qs d) (skipn a (firstn (S i) qs)).
Proof.
  induction qs as [|x qs IH]; intros i a L A; simpl in L; [lia|].
  destruct i as [|i].
  - replace a with 0%nat by lia. now left.
  - change (firstn (S (S i)) (x :: qs)) with (x :: firstn (S i) qs).
    destruct a as [|a].
    + right. apply (IH i 0%nat); lia.
    + apply (IH i a); lia.
Qed.

Lemma window_of_finite (w i : nat) (qs : list Q) :
  window_at w (map Fin qs) i = map Fin (skipn (S i - w) (firstn (S i) qs)).
Proof.
  unfold window_at. now rewrite firstn_map, skipn_map.
Qed.

Lemma finite_valid (qs : list Q) : existsb is_nan (map Fin qs) = false.
Proof. induction qs as [|x qs IH]; simpl; [reflexivity | exact IH]. Qed.

(** The aggregate of a column of finite values at a bar: missing inside
    the lookback, otherwise a bound of the window that holds the bar's own
    value. *)
Lemma rolling_min_at (w i : nat) (qs : list Q) (d : Q) :
  (0 < w)%nat -> (i < length qs)%nat ->
  ((S i < w)%nat -> nth i (rolling_min w (map Fin qs)) NaN = NaN)
  /\ ((w <= S i)%nat ->
      exists m : Q,
        nth i (rolling_min w (map Fin qs)) NaN = Fin m /\ m <= nth i qs d).
Proof.
  intros W L. unfold rolling_min, rolling_agg.
  rewrite nth_map_seq by now rewrite length_map.
  split; intro C.
  - rewrite window_short by assumption. reflexivity.
  - assert (Lw : length (window_at w (map Fin qs) i) = Nat.min w (S i))
      by (apply window_full; now rewrite length_map).
    destruct (Nat.ltb_spec (length (window_at w (map Fin qs) i)) w); [lia|].
    rewrite window_of_finite, finite_valid. simpl.
    pose proof (current_in_window qs d i (S i - w) L ltac:(lia)) as I.
    destruct (window_min (skipn (S i - w) (firstn (S i) qs))) as [m [E A]].
    { intro Z. rewrite Z in I. contradiction. }
    exists m. split; [exact E|]. rewrite Forall_forall in A. now apply A.
Qed.

Lemma rolling_max_at (w i : nat) (qs : list Q) (d : Q) :
  (0 < w)%nat -> (i < length qs)%nat ->
  ((S i < w)%nat -> nth i (rolling_max w (map Fin qs)) NaN = NaN)
  /\ ((w <= S i)%nat ->
      exists m : Q,
        nth i (rolling_max w (map Fin qs)) NaN = Fin m /\ nth i qs d <= m).
Proof.
  intros W L. unfold rolling_max, rolling_agg.
  rewrite nth_map_seq by now rewrite length_map.
  split; intro C.
  - rewrite window_short by assumption. reflexivity.
  - assert (Lw : length (window_at w (map Fin qs) i) = Nat.min w (S i))
      by (apply window_full; now rewrite length_map).
    destruct (Nat.ltb_spec (length (window_at w (map Fin qs) i)) w); [lia|].
    rewrite window_of_finite, finite_valid. simpl.
    pose proof (current_in_window qs d i (S i - w) L ltac:(lia)) as I.
    destruct (window_max (skipn (S i - w) (firstn (S i) qs))) as [m [E A]].
    { intro Z. rewrite Z in I. contradiction. }
    exists m. split; [exact E|]. rewrite Forall_forall in A. now apply A.
Qed.

Lemma nth_zip_with (f : fval -> fval -> fval) (a : list fval) :
  forall (b : list fval) (i : nat),
  (i < length a)%nat -> (i < length b)%nat ->
  nth i (zip_with f a b) NaN = f (nth i a NaN) (nth i b NaN).
Proof.
  induction a as [|x a IH]; intros [|y b] i La Lb; simpl in *; try lia.
  destruct i as [|i]; [reflexivity | apply IH; lia].
Qed.

Lemma rolling_agg_length (f : fval -> fval -> fval) (w : nat)
    (l : list fval) :
  length (rolling_agg f w l) = length l.
Proof. unfold rolling_agg. now rewrite length_map, length_seq. Qed.

Lemma price_position_length (rows : list candle) :
  length (price_position rows) = length rows.
Proof.
  unfold price_position, rolling_min, rolling_max.
  rewrite !zip_with_length, !rolling_agg_length, !length_map. lia.
Qed.

Lemma position_value (c m M : Q) :
  m <= c -> c <= M ->
  ((Fin c - Fin m) / (Fin M - Fin m))%F = NaN
  \/ exists q : Q,
       ((Fin c - Fin m) / (Fin M - Fin m))%F = Fin q /\ 0 <= q /\ q <= 1.
Proof.
  intros L H. unfold fsub, fneg, fadd, fin. cbn [fdiv].
  destruct (Qeq_bool (Qred (M + Qred (- m))) 0) eqn:E.
  - left. apply Qeq_bool_iff in E. rewrite !Qred_correct in E.
    apply inf_of_zero. rewrite !Qred_correct. lra.
  - right. apply Qeq_bool_false in E. rewrite !Qred_correct in E.
    eexists. split; [reflexivity|]. rewrite !Qred_correct.
    assert (D : 0 < M + - m) by lra.
    split.
    + apply Qle_shift_div_l; [assumption | lra].
    + apply Qle_shift_div_r; [assumption | lra].
Qed.

(** X17: on rows with low <= close <= high, the price position has one
    entry per bar, is missing on the first 19 bars, and is afterwards
    either missing (a window without any range) or a number between 0 and
    1. *)
Theorem price_position_in_unit (rows : list candle) :
  Forall (fun r => c_low r <= c_close r /\ c_close r <= c_high r) rows ->
  length (price_position rows) = length rows
  /\ (forall i : nat, (i < 19)%nat -> nth i (price_position rows) NaN = NaN)
  /\ Forall (fun x => x = NaN
                      \/ exists q : Q, x = Fin q /\ 0 <= q /\ q <= 1)
            (price_position rows).
Proof.
  intro F. split; [apply price_position_length|].
  set (d := {| c_high := 0; c_low := 0; c_close := 0 |}).
  assert (K : forall i : nat, (i < length rows)%nat ->
    ((i < 19)%nat -> nth i (price_position rows) NaN = NaN)
    /\ (nth i (price_position rows) NaN = NaN
        \/ exists q : Q,
             nth i (price_position rows) NaN = Fin q /\ 0 <= q /\ q <= 1)).
  { intros i L.
    assert (R : c_low (nth i rows d) <= c_close (nth i rows d)
                /\ c_close (nth i rows d) <= c_high (nth i rows d)).
    { rewrite Forall_forall in F. apply F. now apply nth_In. }
    destruct R as [R0 R1].
    unfold price_position.
    rewrite <- (map_map c_low Fin), <- (map_map c_high Fin),
      <- (map_map c_close Fin).
    assert (Ll : (i < length (map c_low rows))%nat) by now rewrite length_map.
    assert (Lh : (i < length (map c_high rows))%nat) by now rewrite length_map.
    destruct (rolling_min_at 20 i (map c_low rows) (c_low d) ltac:(lia) Ll)
      as [Lo1 Lo2].
    destruct (rolling_max_at 20 i (map c_high rows) (c_high d) ltac:(lia) Lh)
      as [Hi1 Hi2].
    rewrite !nth_zip_with
      by (rewrite ?zip_with_length; unfold rolling_min, rolling_max;
          rewrite ?rolling_agg_length, ?length_map; lia).
    rewrite (nth_indep (map Fin (map c_close rows)) NaN (Fin (c_close d)))
      by now rewrite !length_map.
    rewrite (map_nth Fin), (map_nth c_close).
    destruct (Nat.lt_ge_cases i 19) as [C|C].
    - rewrite Lo1, Hi1 by lia. split; [reflexivity | now left].
    - destruct (Lo2 ltac:(lia)) as [m [-> Lm]].
      destruct (Hi2 ltac:(lia)) as [M [-> LM]].
      rewrite (map_nth c_low) in Lm. rewrite (map_nth c_high) in LM.
      split; [lia|]. apply position_value; lra. }
  split.
  - intros i C. destruct (Nat.lt_ge_cases i (length rows)) as [L|L].
    + now apply (K i L).
    + apply nth_overflow. now rewrite price_position_length.
  - apply Forall_forall. intros x I.
    destruct (In_nth _ _ NaN I) as [i [L <-]].
    rewrite price_position_length in L. now apply (K i L).
Qed.

Lemma price_position_in_unit_witness :
  Forall (fun r => c_low r <= c_close r /\ c_close r <= c_high r) some_candles
  /\ length (price_position some_candles) = length some_candles
  /\ nth 5 (price_position some_candles) NaN = NaN
  /\ nth 20 (price_position some_candles) NaN = Fin (7 # 9).
Proof.
  assert (F : Forall (fun r => c_low r <= c_close r /\ c_close r <= c_high r)
                     some_candles)
    by (repeat constructor; vm_compute; discriminate).
  destruct (price_position_in_unit some_candles F) as [L [E _]].
  split; [exact F | split; [exact L | split]].
  - apply E. lia.
  - vm_compute. reflexivity.
Defined.

End PricePosition.
